(** * rest-base: the MySQL 9.0 monitor and the trailing-space scanner

    A shallow embedding of

    - [shared/mysql-monitor] (class [MySQLMonitor] and
      [createMonitoringMiddleware]), and
    - [scripts/scan-trailing-spaces.js] ([scanColumn], [getSampleRows],
      [scanDatabase]),

    followed by the properties of these two programs.

    Conventions of the embedding.
    - JavaScript strings are [string]s of 8-bit characters; the case mapping
      of [toLowerCase] is the one of the ASCII letters, which is all that
      MySQL's English diagnostics contain.
    - Durations, epoch readings and row counts are integers ([Z]).  The one
      division of the program ([getStats]) is taken in [Q].
    - The script opens its connection with mysql2 and the driver's default
      options: a BIGINT of an answer reaches it as a number, and a DECIMAL
      as the string of its digits.
    - The SQL statements are part of the program: what a connection answers
      to them is either left open (any answer of the right shape) or, where
      a property is about the rows themselves, computed from the rows by the
      meaning of the statement, under the collation of the column.
    - A timestamp is the epoch reading of [new Date()]; [toISOString] only
      renders that reading as text and is not modelled.
    - [async]/[await] is sequential here: a promise is the computation that
      settles it, and a computation that never settles yields [None]. *)

From Stdlib Require Import ZArith QArith List String Ascii Bool Arith Lia.
From Stdlib Require Import DecimalString DecimalPos.
Import ListNotations.

Set Implicit Arguments.

(** ** JavaScript primitives used by the two programs *)

Module Js.

Open Scope string_scope.

(** [String.prototype.toLowerCase], on the ASCII letters. *)
Definition isUpper (c : ascii) : bool :=
  let n := nat_of_ascii c in (65 <=? n)%nat && (n <=? 90)%nat.

Definition lowerChar (c : ascii) : ascii :=
  if isUpper c then ascii_of_nat (nat_of_ascii c + 32) else c.

Fixpoint toLowerCase (s : string) : string :=
  match s with
  | EmptyString => EmptyString
  | String c t => String (lowerChar c) (toLowerCase t)
  end.

(** [s.includes(k)]: [k] occurs in [s] at some offset. *)
Fixpoint includes (s k : string) : bool :=
  if prefix k s then true
  else match s with
       | EmptyString => false
       | String _ t => includes t k
       end.

(** [Array.prototype.some]. *)
Definition some {A} (p : A -> bool) (l : list A) : bool := existsb p l.

(** [x || d] on a number that may be absent: [undefined], and [0], are
    falsy. *)
Definition orNumber (x : option Z) (d : Z) : Z :=
  match x with
  | Some v => if (v =? 0)%Z then d else v
  | None => d
  end.

(** [x !== false] on a boolean that may be absent. *)
Definition notFalse (x : option bool) : bool :=
  match x with
  | Some false => false
  | _ => true
  end.

(** [{ key: base, ...options }]: an own property of [options] replaces the
    value computed for the same key. *)
Definition spread {A} (base : A) (own : option A) : A :=
  match own with
  | Some v => v
  | None => base
  end.

(** The ASCII white space. *)
Definition isWhite (c : ascii) : bool :=
  let n := nat_of_ascii c in
  ((9 <=? n)%nat && (n <=? 13)%nat) || (n =? 32)%nat.

(** The characters that satisfy [drop] removed from the start, and from the
    end, of a string. *)
Fixpoint stripStart (drop : ascii -> bool) (s : string) : string :=
  match s with
  | EmptyString => EmptyString
  | String c t => if drop c then stripStart drop t else s
  end.

Fixpoint stripEnd (drop : ascii -> bool) (s : string) : string :=
  match s with
  | EmptyString => EmptyString
  | String c t =>
      match stripEnd drop t with
      | EmptyString => if drop c then EmptyString else String c EmptyString
      | t' => String c t'
      end
  end.

(** [String.prototype.trim], on the ASCII white space. *)
Definition trim (s : string) : string := stripEnd isWhite (stripStart isWhite s).

(** An [Error] object, by its [message] and [stack]. *)
Record Error := mkError { message : string; stack : string }.

(** How a call ends: it returns a value or throws. *)
Inductive Outcome (A : Type) : Type :=
| Returned (a : A)
| Thrown (e : Error).
Arguments Returned {A} a.
Arguments Thrown {A} e.

End Js.

(** ** [shared/mysql-monitor] *)

Module Monitor.

Import Js.
Open Scope string_scope.
Open Scope Z_scope.

(** *** Records *)

(** The [options] argument of the constructor: each key may be missing. *)
Record RawOptions := {
  opt_logWarnings : option bool;
  opt_trackSlowQueries : option bool;
  opt_slowQueryThreshold : option Z
}.

(** [new MySQLMonitor()]: [options = {}]. *)
Definition noOptions : RawOptions :=
  {| opt_logWarnings := None;
     opt_trackSlowQueries := None;
     opt_slowQueryThreshold := None |}.

(** [this.options]. *)
Record Options := {
  logWarnings : bool;
  trackSlowQueries : bool;
  slowQueryThreshold : Z
}.

(** A row of [SHOW WARNINGS]. *)
Record Warning := {
  Level : string;
  Code : Z;
  Message : string
}.

(** [warningData]. *)
Record WarningData := {
  wd_timestamp : Z;
  wd_level : string;
  wd_code : Z;
  wd_message : string;
  wd_query : string;
  wd_executionTime : Z
}.

(** An element of [this.slowQueries]. *)
Record SlowQuery := {
  sq_timestamp : Z;
  sq_query : string;
  sq_executionTime : Z
}.

(** The fields of a [MySQLMonitor]. *)
Record MySQLMonitor := {
  options : Options;
  warnings : list WarningData;
  deprecationWarnings : list WarningData;
  slowQueries : list SlowQuery
}.

(** *** [constructor(options = {})] *)
Definition constructor (o : RawOptions) : MySQLMonitor :=
  {| options :=
       {| logWarnings :=
            spread (notFalse (opt_logWarnings o)) (opt_logWarnings o);
          trackSlowQueries :=
            spread (notFalse (opt_trackSlowQueries o)) (opt_trackSlowQueries o);
          slowQueryThreshold :=
            spread (orNumber (opt_slowQueryThreshold o) 1000)
                   (opt_slowQueryThreshold o) |};
     warnings := [];
     deprecationWarnings := [];
     slowQueries := [] |}.

(** *** [isDeprecationWarning(warning)] *)
Definition deprecationKeywords : list string :=
  [ "deprecated";
    "will be removed";
    "is obsolete";
    "no longer supported";
    "authentication_string" ].

Definition isDeprecationWarning (warning : Warning) : bool :=
  let message := toLowerCase (Message warning) in
  some (fun keyword => includes message keyword) deprecationKeywords.
Arguments isDeprecationWarning : simpl never.

(** *** The run-time state

    One monitor object, the logger's output, the clock, and the database
    server behind the connection, threaded through every call. *)

Inductive LogLevel := warn | error.

Inductive LogPayload :=
| WarningPayload (d : WarningData)
| SlowQueryPayload (query : string) (executionTime threshold : Z)
| TrailingPayload (table column : string) (count : Z)
| ErrorPayload (e : Error).

(** A call [logger.warn(text, payload)] or [logger.error(text, payload)]. *)
Record LogEvent := {
  log_level : LogLevel;
  log_text : string;
  log_payload : LogPayload
}.

(** The first argument of [connection.query]: the SQL text, or an object
    with an [sql] property. *)
Inductive QueryArg :=
| SqlText (sql : string)
| SqlObject (sql : string).

(** The first component of what [connection.query] resolves to, read as rows
    of [SHOW WARNINGS]; [None] is [undefined]. *)
Definition QueryResult := option (list Warning).

(** [array.length] *)
Definition len {A} (l : list A) : Z := Z.of_nat (List.length l).

(** [array.reduce(f, init)] *)
Definition reduce {A B} (f : B -> A -> B) (init : B) (l : list A) : B :=
  fold_left f l init.

(** A row answered to the SELECT of [scanTrailingSpaces]:
    [id], the column itself, [char_length] and [byte_length]. *)
Record TrailingRow := {
  row_id : Z;
  row_value : string;
  row_char_length : Z;
  row_byte_length : Z
}.

(** An element of the [rows] of a result of [scanTrailingSpaces]. *)
Record ScannedRow := {
  id : Z;
  value : string;
  charLength : Z;
  byteLength : Z;
  hasTrailingSpaces : bool
}.

(** An element of the array that [scanTrailingSpaces] returns. *)
Record TrailingSpaces := {
  table : string;
  column : string;
  rowsAffected : Z;
  rows : list ScannedRow
}.

(** What a connection answers to
    [SELECT id, `column`, CHAR_LENGTH(`column`) as char_length,
            LENGTH(`column`) as byte_length
     FROM `tableName` WHERE `column` != TRIM(`column`)],
    as a function of [tableName] and [column]: the statement only reads. *)
Definition RowSource := string -> string -> Outcome (option (list TrailingRow)).

Section Runtime.

(** The state of the database server, whatever it is. *)
Variable DbState : Type.

(** The successive readings of the system clock, in milliseconds. *)
Variable clock : nat -> Z.

Record World := {
  db : DbState;
  clockReads : nat;
  logged : list LogEvent;
  monitor : MySQLMonitor
}.

(** A computation: it never settles ([None]), or it returns or throws in
    a new state. *)
Definition M (A : Type) : Type := World -> option (Outcome A * World).

Definition ret {A} (a : A) : M A := fun w => Some (Returned a, w).

Definition throw {A} (e : Error) : M A := fun w => Some (Thrown e, w).

Definition bind {A B} (m : M A) (k : A -> M B) : M B :=
  fun w =>
    match m w with
    | None => None
    | Some (Returned a, w') => k a w'
    | Some (Thrown e, w') => Some (Thrown e, w')
    end.

(** [try { body } catch (error) { handler }]. *)
Definition try_catch {A} (body : M A) (handler : Error -> M A) : M A :=
  fun w =>
    match body w with
    | Some (Thrown e, w') => handler e w'
    | settled => settled
    end.

(** A pure answer, placed in the current state. *)
Definition settle {A} (o : Outcome A) : M A := fun w => Some (o, w).

Notation "x <- m ;; k" := (bind m (fun x => k))
  (at level 61, m at next level, right associativity).
Notation "m ;;; k" := (bind m (fun _ => k))
  (at level 61, right associativity).

(** [Date.now()], and the reading behind [new Date()]. *)
Definition Date_now : M Z :=
  fun w =>
    Some (Returned (clock (clockReads w)),
          {| db := db w;
             clockReads := S (clockReads w);
             logged := logged w;
             monitor := monitor w |}).

(** [logger.warn] and [logger.error] append to the log. *)
Definition logger (l : LogLevel) (text : string) (p : LogPayload) : M unit :=
  fun w =>
    Some (Returned tt,
          {| db := db w;
             clockReads := clockReads w;
             logged := logged w ++ [ {| log_level := l;
                                        log_text := text;
                                        log_payload := p |} ];
             monitor := monitor w |}).

Definition this_options : M Options :=
  fun w => Some (Returned (options (monitor w)), w).

Definition update (f : MySQLMonitor -> MySQLMonitor) : M unit :=
  fun w =>
    Some (Returned tt,
          {| db := db w;
             clockReads := clockReads w;
             logged := logged w;
             monitor := f (monitor w) |}).

(** [this.warnings.push(d)] *)
Definition push_warnings (d : WarningData) : M unit :=
  update (fun m => {| options := options m;
                      warnings := warnings m ++ [d];
                      deprecationWarnings := deprecationWarnings m;
                      slowQueries := slowQueries m |}).

(** [this.deprecationWarnings.push(d)] *)
Definition push_deprecationWarnings (d : WarningData) : M unit :=
  update (fun m => {| options := options m;
                      warnings := warnings m;
                      deprecationWarnings := deprecationWarnings m ++ [d];
                      slowQueries := slowQueries m |}).

(** [this.slowQueries.push(q)] *)
Definition push_slowQueries (q : SlowQuery) : M unit :=
  update (fun m => {| options := options m;
                      warnings := warnings m;
                      deprecationWarnings := deprecationWarnings m;
                      slowQueries := slowQueries m ++ [q] |}).

(** [Array.prototype.forEach] with an effectful callback. *)
Fixpoint forEach {A} (l : list A) (f : A -> M unit) : M unit :=
  match l with
  | [] => ret tt
  | x :: t => f x ;;; forEach t f
  end.

(** A connection, by its [query] method. *)
Record Connection := { query : QueryArg -> M QueryResult }.

(** *** [checkWarnings(connection, queryText, executionTime)] *)

(** The callback of [warnings.forEach]. *)
Definition recordWarning (queryText : string) (executionTime : Z)
           (warning : Warning) : M unit :=
  timestamp <- Date_now ;;
  let warningData :=
    {| wd_timestamp := timestamp;
       wd_level := Level warning;
       wd_code := Code warning;
       wd_message := Message warning;
       wd_query := queryText;
       wd_executionTime := executionTime |} in
  push_warnings warningData ;;;
  if isDeprecationWarning warning then
    push_deprecationWarnings warningData ;;;
    o <- this_options ;;
    if logWarnings o
    then logger warn "MySQL Deprecation Warning" (WarningPayload warningData)
    else ret tt
  else ret tt.

Definition checkWarnings (connection : Connection) (queryText : string)
           (executionTime : Z) : M unit :=
  try_catch
    (warnings <- query connection (SqlText "SHOW WARNINGS") ;;
     match warnings with
     | Some ((_ :: _) as ws) => forEach ws (recordWarning queryText executionTime)
     | _ => ret tt
     end ;;;
     o <- this_options ;;
     if trackSlowQueries o && (executionTime >? slowQueryThreshold o) then
       timestamp <- Date_now ;;
       push_slowQueries {| sq_timestamp := timestamp;
                           sq_query := queryText;
                           sq_executionTime := executionTime |} ;;;
       o <- this_options ;;
       if logWarnings o
       then logger warn "Slow Query Detected"
                   (SlowQueryPayload queryText executionTime
                                     (slowQueryThreshold o))
       else ret tt
     else ret tt)
    (fun error =>
       o <- this_options ;;
       if logWarnings o
       then logger Monitor.error "Error checking MySQL warnings"
                   (ErrorPayload error)
       else ret tt).

(** *** [scanTrailingSpaces(connection, tableName, columns)] *)

(** [rows.map(row => ({ ... }))] *)
Definition scannedRow (row : TrailingRow) : ScannedRow :=
  {| id := row_id row;
     value := row_value row;
     charLength := row_char_length row;
     byteLength := row_byte_length row;
     hasTrailingSpaces := negb (row_value row =? trim (row_value row))%string |}.

(** The body of the [for] loop, for one [column]; [results] is the array
    as it stands, and the array as the body leaves it is returned. *)
Definition scanTrailingColumn (connection : RowSource) (tableName column : string)
           (results : list TrailingSpaces) : M (list TrailingSpaces) :=
  try_catch
    (rows <- settle (connection tableName column) ;;
     match rows with
     | Some ((_ :: _) as rs) =>
         let results' :=
           (results ++ [ {| table := tableName;
                            column := column;
                            rowsAffected := len rs;
                            rows := map scannedRow rs |} ])%list in
         o <- this_options ;;
         if logWarnings o
         then logger warn "Trailing spaces detected"
                     (TrailingPayload tableName column (len rs)) ;;;
              ret results'
         else ret results'
     | _ => ret results
     end)
    (fun error =>
       o <- this_options ;;
       if logWarnings o
       then logger Monitor.error
                   ("Error scanning column " ++ column ++ " in table " ++ tableName)
                   (ErrorPayload error) ;;;
            ret results
       else ret results).

Fixpoint scanTrailingColumns (connection : RowSource) (tableName : string)
         (columns : list string) (results : list TrailingSpaces)
  : M (list TrailingSpaces) :=
  match columns with
  | [] => ret results
  | column :: rest =>
      results' <- scanTrailingColumn connection tableName column results ;;
      scanTrailingColumns connection tableName rest results'
  end.

Definition scanTrailingSpaces (connection : RowSource) (tableName : string)
           (columns : list string) : M (list TrailingSpaces) :=
  scanTrailingColumns connection tableName columns [].

(** *** [clear()] *)
Definition clear : M unit :=
  update (fun m => {| options := options m;
                      warnings := [];
                      deprecationWarnings := [];
                      slowQueries := [] |}).

(** *** [createMonitoringMiddleware(monitor)]

    [monitoredQuery] is the function stored in [req.db.connection.query].
    Its body reads [req.db.connection] when it runs, that is the
    connection whose [query] is [monitoredQuery] itself; [fuel] bounds the
    depth of these nested calls. *)
Definition sqlOf (a : QueryArg) : string :=
  match a with
  | SqlText s => s
  | SqlObject s => s
  end.

Fixpoint monitoredQuery (fuel : nat) (originalQuery : QueryArg -> M QueryResult)
         (args : QueryArg) : M QueryResult :=
  match fuel with
  | O => fun _ => None
  | S fuel' =>
      let connection := {| query := monitoredQuery fuel' originalQuery |} in
      startTime <- Date_now ;;
      let queryText := sqlOf args in
      try_catch
        (result <- originalQuery args ;;
         finish <- Date_now ;;
         let executionTime := finish - startTime in
         checkWarnings connection queryText executionTime ;;;
         ret result)
        (fun error =>
           finish <- Date_now ;;
           let executionTime := finish - startTime in
           checkWarnings connection queryText executionTime ;;;
           throw error)
  end.

(** [req], by [req.db.connection] ([None] when [req.db] or the connection
    is missing). *)
Record Request := { db_connection : option Connection }.

(** The middleware, up to the call of [next]. *)
Definition createMonitoringMiddleware (fuel : nat) (req : Request) : Request :=
  match db_connection req with
  | Some connection =>
      let originalQuery := query connection in
      {| db_connection :=
           Some {| query := monitoredQuery fuel originalQuery |} |}
  | None => req
  end.

End Runtime.

(** *** [getStats()] *)
Record Stats := {
  st_totalWarnings : Z;
  st_deprecationWarnings : Z;
  st_slowQueries : Z;
  st_avgSlowQueryTime : Q
}.

Definition getStats (this : MySQLMonitor) : Stats :=
  {| st_totalWarnings := len (warnings this);
     st_deprecationWarnings := len (deprecationWarnings this);
     st_slowQueries := len (slowQueries this);
     st_avgSlowQueryTime :=
       if len (slowQueries this) >? 0
       then Qdiv
              (inject_Z (reduce (fun sum q => sum + sq_executionTime q) 0
                                (slowQueries this)))
              (inject_Z (len (slowQueries this)))
       else 0%Q |}.

(** *** Vocabulary of the properties *)

(** Two characters that are equal, or the two cases of one letter. *)
Definition sameLetter (a b : ascii) : bool :=
  let x := nat_of_ascii a in
  let y := nat_of_ascii b in
  (x =? y)%nat
  || (isUpper a && (y =? x + 32)%nat)
  || (isUpper b && (x =? y + 32)%nat).

(** Two strings that are equal up to the case of their letters. *)
Inductive equalIgnoringCase : string -> string -> Prop :=
| eic_empty : equalIgnoringCase EmptyString EmptyString
| eic_char a b s t :
    sameLetter a b = true ->
    equalIgnoringCase s t ->
    equalIgnoringCase (String a s) (String b t).

(** A string without capitals. *)
Fixpoint noUpper (s : string) : bool :=
  match s with
  | EmptyString => true
  | String c t => negb (isUpper c) && noUpper t
  end.

(** [k] is a case-insensitive substring of [s]. *)
Definition occursIgnoringCase (k s : string) : Prop :=
  exists before found after,
    s = before ++ found ++ after /\ equalIgnoringCase found k.

(** The number of times a record appears in a log. *)
Definition WarningData_eq_dec (a b : WarningData) : {a = b} + {a <> b}.
Proof. decide equality; auto using Z.eq_dec, string_dec. Defined.

Definition occurrences (d : WarningData) (log : list WarningData) : nat :=
  count_occ WarningData_eq_dec log d.

(** The arithmetic mean of a list of durations. *)
Definition mean (l : list Z) : Q :=
  Qdiv (inject_Z (fold_right Z.add 0 l)) (inject_Z (Z.of_nat (List.length l))).

(** The entry that [scanTrailingSpaces] adds for one column: none when the
    statement fails, or answers no row. *)
Definition found (connection : RowSource) (tableName column : string)
  : list TrailingSpaces :=
  match connection tableName column with
  | Returned (Some (r :: rs)) =>
      [ {| table := tableName;
           column := column;
           rowsAffected := len (r :: rs);
           rows := map scannedRow (r :: rs) |} ]
  | _ => []
  end.

Section Reachability.

Variable DbState : Type.
Variable clock : nat -> Z.

(** A connection that is not the patched one: its [query] leaves the
    monitor alone. *)
Definition plain (connection : Connection DbState) : Prop :=
  forall a w o w', query connection a w = Some (o, w') -> monitor w' = monitor w.

(** The [warningData] of one warning, read at [timestamp]. *)
Definition dataOf (queryText : string) (executionTime timestamp : Z)
           (warning : Warning) : WarningData :=
  {| wd_timestamp := timestamp;
     wd_level := Level warning;
     wd_code := Code warning;
     wd_message := Message warning;
     wd_query := queryText;
     wd_executionTime := executionTime |}.

(** The records of a sequence of warnings, the clock having been read [n]
    times before, and those of its deprecation warnings. *)
Fixpoint records (queryText : string) (executionTime : Z) (n : nat)
         (ws : list Warning) : list WarningData :=
  match ws with
  | [] => []
  | x :: rest =>
      dataOf queryText executionTime (clock n) x
      :: records queryText executionTime (S n) rest
  end.

Fixpoint deprecations (queryText : string) (executionTime : Z) (n : nat)
         (ws : list Warning) : list WarningData :=
  match ws with
  | [] => []
  | x :: rest =>
      (if isDeprecationWarning x
       then [dataOf queryText executionTime (clock n) x]
       else [])
      ++ deprecations queryText executionTime (S n) rest
  end.

(** The rows of an answer; [undefined] has none. *)
Definition rowsOf (r : QueryResult) : list Warning :=
  match r with
  | Some ws => ws
  | None => []
  end.

(** The states after a [new MySQLMonitor(options)] and any sequence of
    [checkWarnings] and [clear]. *)
Inductive reachable : World DbState -> Prop :=
| reach_new o d n l :
    reachable {| db := d; clockReads := n; logged := l; monitor := constructor o |}
| reach_checkWarnings w connection queryText executionTime o w' :
    reachable w ->
    plain connection ->
    checkWarnings clock connection queryText executionTime w = Some (o, w') ->
    reachable w'
| reach_clear w o w' :
    reachable w ->
    clear w = Some (o, w') ->
    reachable w'.

End Reachability.

(** *** [getDeprecationWarnings()] and [getSlowQueries()] *)
Definition getDeprecationWarnings (this : MySQLMonitor) : list WarningData :=
  deprecationWarnings this.

Definition getSlowQueries (this : MySQLMonitor) : list SlowQuery :=
  slowQueries this.

(** *** More vocabulary *)

(** The warning that a record was made of, and its class. *)
Definition warningOf (d : WarningData) : Warning :=
  {| Level := wd_level d; Code := wd_code d; Message := wd_message d |}.

Definition isDeprecationData (d : WarningData) : bool :=
  isDeprecationWarning (warningOf d).

(** The three lines that [checkWarnings] may log. *)
Definition deprecationEvent (d : WarningData) : LogEvent :=
  {| log_level := warn;
     log_text := "MySQL Deprecation Warning";
     log_payload := WarningPayload d |}.

Definition slowQueryEvent (queryText : string) (executionTime threshold : Z)
  : LogEvent :=
  {| log_level := warn;
     log_text := "Slow Query Detected";
     log_payload := SlowQueryPayload queryText executionTime threshold |}.

Definition errorEvent (e : Error) : LogEvent :=
  {| log_level := error;
     log_text := "Error checking MySQL warnings";
     log_payload := ErrorPayload e |}.

(** The statistics of a monitor that holds nothing. *)
Definition noStats : Stats :=
  {| st_totalWarnings := 0;
     st_deprecationWarnings := 0;
     st_slowQueries := 0;
     st_avgSlowQueryTime := 0%Q |}.

(** The monitor after a [checkWarnings] whose [SHOW WARNINGS] was answered
    with [rows], the clock having been read [n] times before. *)
Definition afterCheck (clock : nat -> Z) (queryText : string) (executionTime : Z)
           (n : nat) (rows : list Warning) (m : MySQLMonitor) : MySQLMonitor :=
  {| options := options m;
     warnings := warnings m ++ records clock queryText executionTime n rows;
     deprecationWarnings :=
       deprecationWarnings m ++ deprecations clock queryText executionTime n rows;
     slowQueries :=
       slowQueries m
       ++ (if trackSlowQueries (options m)
              && (executionTime >? slowQueryThreshold (options m))
           then [ {| sq_timestamp := clock (n + List.length rows)%nat;
                     sq_query := queryText;
                     sq_executionTime := executionTime |} ]
           else []) |}.

(** The monitor after [clear]. *)
Definition cleared (m : MySQLMonitor) : MySQLMonitor :=
  {| options := options m;
     warnings := [];
     deprecationWarnings := [];
     slowQueries := [] |}.

(** What a record keeps of its warning. *)
Definition kept (d : WarningData) : string * Z * string :=
  (wd_level d, wd_code d, wd_message d).

Definition given (x : Warning) : string * Z * string :=
  (Level x, Code x, Message x).

End Monitor.

(** ** [scripts/scan-trailing-spaces.js] *)

Module Scanner.

Import Js.
Open Scope string_scope.
Open Scope Z_scope.

(** *** Text *)

(** The line feed and the double quote of the template literals. *)
Definition nl : string := String (ascii_of_nat 10) EmptyString.
Definition dq : string := String (ascii_of_nat 34) EmptyString.

(** [`${n}`] for an integer. *)
Definition show (n : Z) : string := NilEmpty.string_of_int (Z.to_int n).

(** *** Values

    What the script compares, adds and prints: numbers, strings and
    [null]. *)
Inductive Value :=
| null
| number (n : Z)
| text (s : string).

(** [`${v}`], and what [+] makes of a value beside a string. *)
Definition toString (v : Value) : string :=
  match v with
  | null => "null"
  | number n => show n
  | text s => s
  end.

(** The value of a decimal digit. *)
Definition digit (c : ascii) : option Z :=
  let n := Z.of_nat (nat_of_ascii c) in
  if (48 <=? n) && (n <=? 57) then Some (n - 48) else None.

(** The value of the digits [s] written after digits of value [acc]. *)
Fixpoint digitsFrom (acc : Z) (s : string) : option Z :=
  match s with
  | EmptyString => Some acc
  | String c t =>
      match digit c with
      | Some k => digitsFrom (10 * acc + k) t
      | None => None
      end
  end.

(** One digit or more. *)
Definition unsigned (s : string) : option Z :=
  match s with
  | EmptyString => None
  | _ => digitsFrom 0 s
  end.

(** [Number(s)], the number that a string stands for in a comparison: 0 for
    the empty string, and its value for a decimal integer, with its sign if
    it has one; [None] is [NaN].  The other numeric literals of JavaScript (a
    fraction, an exponent, a radix prefix, white space around, [Infinity])
    are left out, and read as [NaN]: the strings that the script compares
    are the counts of the driver and what [+=] makes of them.  The number is
    taken as it is written, where JavaScript rounds it to a double. *)
Definition Number (s : string) : option Z :=
  match s with
  | EmptyString => Some 0
  | String c t =>
      match digit c with
      | Some _ => digitsFrom 0 s
      | None =>
          if (c =? "-")%char then option_map Z.opp (unsigned t)
          else if (c =? "+")%char then unsigned t
          else None
      end
  end.

(** The number that a value stands for in a comparison; [null] is 0. *)
Definition toNumber (v : Value) : option Z :=
  match v with
  | null => Some 0
  | number n => Some n
  | text s => Number s
  end.

(** [v > 0]; a comparison with [NaN] is false. *)
Definition positive (v : Value) : bool :=
  match toNumber v with
  | Some n => n >? 0
  | None => false
  end.

(** [a + b]: a sum of numbers, with [null] for 0, and a concatenation as
    soon as one of the two is a string. *)
Definition plus (a b : Value) : Value :=
  match a, b with
  | number x, number y => number (x + y)
  | number x, null => number x
  | null, number y => number y
  | null, null => number 0
  | _, _ => text (toString a ++ toString b)
  end.

(** *** [dbConfig] *)

(** The variables of [process.env] that the script reads. *)
Record Env := {
  DB_HOST : option string;
  DB_PORT : option string;
  DB_USER : option string;
  DB_PASSWORD : option string;
  DB_NAME : option string
}.

(** [x || d] on a string that may be absent: [undefined], and [''], are
    falsy. *)
Definition orString (x : option string) (d : string) : string :=
  match x with
  | Some EmptyString => d
  | Some v => v
  | None => d
  end.

Record DbConfig := {
  host : string;
  port : string;
  user : string;
  password : string;
  database : string
}.

Definition dbConfig (env : Env) : DbConfig :=
  {| host := orString (DB_HOST env) "localhost";
     port := orString (DB_PORT env) "3306";
     user := orString (DB_USER env) "root";
     password := orString (DB_PASSWORD env) "";
     database := orString (DB_NAME env) "" |}.

(** [!s] on a string. *)
Definition isEmpty (s : string) : bool :=
  match s with
  | EmptyString => true
  | _ => false
  end.

(** *** The connection

    The script sends four statements, all of which only read; a connection
    is what the server at its other end answers to each of them, and to
    [end()]. *)

Record TableRow := { TABLE_NAME : string }.

Record ColumnRow := { COLUMN_NAME : string }.

(** The single row of the aggregate of [scanColumn], as the server sends it:
    [COUNT( * )] is a BIGINT, and [SUM] over the integers of the CASE is a
    DECIMAL of scale 0, or NULL when there is no row. *)
Record Aggregate := {
  count_star : Z;
  sum_case : option Z
}.

(** The same row as mysql2 hands it to the script.  [dbConfig] sets none of
    the options [supportBigNumbers], [bigNumberStrings] and [decimalNumbers]
    of the driver, which then gives a BIGINT as a number and a DECIMAL as the
    string of its digits. *)
Record CountRow := {
  total_rows : Z;
  trailing_space_count : Value
}.

Definition decodeCounts (a : Aggregate) : CountRow :=
  {| total_rows := count_star a;
     trailing_space_count :=
       match sum_case a with
       | Some n => text (show n)
       | None => null
       end |}.

Record SampleRow := {
  id : Z;
  value : string;
  char_length : Z;
  byte_length : Z
}.

Record Connection := {
  (** [SELECT TABLE_NAME FROM INFORMATION_SCHEMA.TABLES
       WHERE TABLE_SCHEMA = ? AND TABLE_TYPE = 'BASE TABLE'] *)
  selectTables : string -> Outcome (list TableRow);
  (** [SELECT COLUMN_NAME FROM INFORMATION_SCHEMA.COLUMNS
       WHERE TABLE_SCHEMA = ? AND TABLE_NAME = ? AND DATA_TYPE IN (...)] *)
  selectStringColumns : string -> string -> Outcome (list ColumnRow);
  (** [SELECT COUNT( * ) as total_rows,
              SUM(CASE WHEN `c` != TRIM(`c`) THEN 1 ELSE 0 END)
                as trailing_space_count
       FROM `t` WHERE `c` IS NOT NULL] *)
  selectCounts : string -> string -> Outcome Aggregate;
  (** [SELECT id, `c` as value, CHAR_LENGTH(`c`) as char_length,
              LENGTH(`c`) as byte_length
       FROM `t` WHERE `c` != TRIM(`c`) LIMIT ?] *)
  selectSamples : string -> string -> Z -> Outcome (list SampleRow);
  (** [connection.end()] *)
  endConnection : Outcome unit
}.

(** [mysql.createConnection] *)
Record Mysql := { createConnection : DbConfig -> Outcome Connection }.

(** *** The process

    What the script has written so far and its local [connection], threaded
    through every statement; a statement returns, throws, or ends the
    process with [process.exit]. *)

Inductive Output :=
| console_log (s : string)
| console_error (s : string)
| spinner_start (s : string)
| spinner_succeed (s : string)
| spinner_warn (s : string)
| spinner_fail (s : string).

Record Process := {
  written : list Output;
  connection : option Connection
}.

Inductive Step (A : Type) : Type :=
| Done (a : A)
| Raised (e : Error)
| Exited (code : Z).
Arguments Done {A} a.
Arguments Raised {A} e.
Arguments Exited {A} code.

Definition P (A : Type) : Type := Process -> Step A * Process.

Definition ret {A} (a : A) : P A := fun p => (Done a, p).

Definition bind {A B} (m : P A) (k : A -> P B) : P B :=
  fun p =>
    match m p with
    | (Done a, p') => k a p'
    | (Raised e, p') => (Raised e, p')
    | (Exited c, p') => (Exited c, p')
    end.

Notation "x <- m ;; k" := (bind m (fun x => k))
  (at level 61, m at next level, right associativity).
Notation "m ;;; k" := (bind m (fun _ => k))
  (at level 61, right associativity).

(** [process.exit(code)] *)
Definition process_exit {A} (code : Z) : P A := fun p => (Exited code, p).

(** [await] of a settled answer. *)
Definition await {A} (o : Outcome A) : P A :=
  fun p =>
    match o with
    | Returned a => (Done a, p)
    | Thrown e => (Raised e, p)
    end.

Definition write (o : Output) : P unit :=
  fun p => (Done tt, {| written := written p ++ [o]; connection := connection p |}).

(** [connection = c] *)
Definition assign_connection (c : Connection) : P unit :=
  fun p => (Done tt, {| written := written p; connection := Some c |}).

Definition read_connection : P (option Connection) :=
  fun p => (Done (connection p), p).

(** [try { body } catch (error) { handler } finally { final }]: [final]
    runs unless the process has ended. *)
Definition try_catch_finally {A} (body : P A) (handler : Error -> P A)
           (final : P unit) : P A :=
  fun p =>
    let caught :=
      match body p with
      | (Raised e, p') => handler e p'
      | settled => settled
      end in
    match caught with
    | (Exited c, p') => (Exited c, p')
    | (r, p') =>
        match final p' with
        | (Done _, p'') => (r, p'')
        | (Raised e, p'') => (Raised e, p'')
        | (Exited c, p'') => (Exited c, p'')
        end
    end.

Fixpoint forEach {A} (l : list A) (f : A -> P unit) : P unit :=
  match l with
  | [] => ret tt
  | x :: t => f x ;;; forEach t f
  end.

Definition len {A} (l : list A) : Z := Z.of_nat (List.length l).

(** An answer, once decoded. *)
Definition answer {A B} (f : A -> B) (o : Outcome A) : Outcome B :=
  match o with
  | Returned a => Returned (f a)
  | Thrown e => Thrown e
  end.

(** *** [getAllTables(connection)] and [getStringColumns(connection, tableName)] *)

Definition getAllTables (cfg : DbConfig) (connection : Connection) : P (list string) :=
  tables <- await (selectTables connection (database cfg)) ;;
  ret (map TABLE_NAME tables).

Definition getStringColumns (cfg : DbConfig) (connection : Connection)
           (tableName : string) : P (list string) :=
  columns <- await (selectStringColumns connection (database cfg) tableName) ;;
  ret (map COLUMN_NAME columns).

(** *** [scanColumn(connection, tableName, columnName)] *)

(** What [scanColumn] returns. *)
Record ColumnScan := {
  table : string;
  column : string;
  totalRows : Z;
  trailingSpaceCount : Value
}.

Definition scanColumn (connection : Connection) (tableName columnName : string)
  : P ColumnScan :=
  results <- await (answer decodeCounts
                           (selectCounts connection tableName columnName)) ;;
  ret {| table := tableName;
         column := columnName;
         totalRows := total_rows results;
         trailingSpaceCount := trailing_space_count results |}.

(** *** [getSampleRows(connection, tableName, columnName, limit = 5)] *)
Definition getSampleRows (connection : Connection) (tableName columnName : string)
           (limit : Z) : P (list SampleRow) :=
  rows <- await (selectSamples connection tableName columnName limit) ;;
  ret rows.

(** *** [scanDatabase()] *)

(** The two variables of the scan: [results] and [totalIssues]. *)
Record Scan := {
  results : list ColumnScan;
  totalIssues : Value
}.

(** The body of the inner [for] loop. *)
Definition scanOne (connection : Connection) (table column : string) (s : Scan)
  : P Scan :=
  result <- scanColumn connection table column ;;
  if positive (trailingSpaceCount result) then
    let s' := {| results := (results s ++ [result])%list;
                 totalIssues := plus (totalIssues s) (trailingSpaceCount result) |} in
    write (spinner_warn
             (table ++ "." ++ column ++ ": "
              ++ toString (trailingSpaceCount result) ++ " / "
              ++ show (totalRows result) ++ " rows have trailing spaces")) ;;;
    samples <- getSampleRows connection table column 5 ;;
    (if len samples >? 0 then
       write (console_log "  Sample values:") ;;;
       forEach samples
               (fun sample =>
                  write (console_log
                           ("    ID " ++ show (id sample) ++ ": " ++ dq
                            ++ value sample ++ dq ++ " (length: "
                            ++ show (char_length sample) ++ ")")))
     else ret tt) ;;;
    ret s'
  else ret s.

Fixpoint scanColumns (connection : Connection) (table : string)
         (columns : list string) (s : Scan) : P Scan :=
  match columns with
  | [] => ret s
  | column :: rest =>
      s' <- scanOne connection table column s ;;
      scanColumns connection table rest s'
  end.

(** The body of the outer [for] loop. *)
Definition scanTable (cfg : DbConfig) (connection : Connection) (table : string)
           (s : Scan) : P Scan :=
  write (spinner_start ("Scanning table: " ++ table)) ;;;
  columns <- getStringColumns cfg connection table ;;
  s' <- scanColumns connection table columns s ;;
  write (spinner_succeed ("Completed: " ++ table)) ;;;
  ret s'.

Fixpoint scanTables (cfg : DbConfig) (connection : Connection)
         (tables : list string) (s : Scan) : P Scan :=
  match tables with
  | [] => ret s
  | table :: rest =>
      s' <- scanTable cfg connection table s ;;
      scanTables cfg connection rest s'
  end.

(** The statement that the summary suggests for one affected column. *)
Definition trimStatement (r : ColumnScan) : string :=
  "  UPDATE `" ++ table r ++ "` SET `" ++ column r ++ "` = TRIM(`" ++ column r ++ "`);".

(** The summary, after the loops. *)
Definition summary (s : Scan) : P unit :=
  write (console_log (nl ++ "=== Scan Summary ===" ++ nl)) ;;;
  (if positive (totalIssues s) then
     write (console_log
              ("⚠️  Found " ++ toString (totalIssues s)
               ++ " rows with trailing spaces across "
               ++ show (len (results s)) ++ " columns" ++ nl)) ;;;
     write (console_log "Affected columns:") ;;;
     forEach (results s)
             (fun r =>
                write (console_log
                         ("  • " ++ table r ++ "." ++ column r ++ ": "
                          ++ toString (trailingSpaceCount r) ++ " rows"))) ;;;
     write (console_log (nl ++ "⚠️  Action Required:")) ;;;
     write (console_log
              "These trailing spaces may cause issues with MySQL 9.0 NO PAD collation.") ;;;
     write (console_log
              ("Consider running UPDATE queries to trim these values:" ++ nl)) ;;;
     forEach (results s) (fun r => write (console_log (trimStatement r)))
   else
     write (console_log "✓ No trailing spaces detected in any string columns") ;;;
     write (console_log "✓ Database is ready for MySQL 9.0 NO PAD collation")) ;;;
  write (console_log "").

(** The [try] block; it returns the two variables of the scan, which the
    script itself only prints. *)
Definition scanAll (cfg : DbConfig) (mysql : Mysql) : P Scan :=
  c <- await (createConnection mysql cfg) ;;
  assign_connection c ;;;
  write (spinner_succeed "Connected to database") ;;;
  tables <- getAllTables cfg c ;;
  write (console_log (nl ++ "Found " ++ show (len tables) ++ " tables to scan" ++ nl)) ;;;
  s <- scanTables cfg c tables {| results := []; totalIssues := number 0 |} ;;
  summary s ;;;
  ret s.

Definition scanDatabase (env : Env) (mysql : Mysql) : P Scan :=
  let cfg := dbConfig env in
  (if isEmpty (database cfg) then
     write (console_error "Error: DB_NAME environment variable is required") ;;;
     write (console_log (nl ++ "Usage:")) ;;;
     write (console_log
              "  DB_NAME=mydb DB_USER=user DB_PASSWORD=pass node scan-trailing-spaces.js") ;;;
     process_exit 1
   else ret tt) ;;;
  write (console_log (nl ++ "=== MySQL Trailing Space Scanner ===" ++ nl)) ;;;
  write (console_log ("Database: " ++ database cfg)) ;;;
  write (console_log ("Host: " ++ host cfg ++ ":" ++ port cfg ++ nl)) ;;;
  write (spinner_start "Connecting to database...") ;;;
  try_catch_finally
    (scanAll cfg mysql)
    (fun error =>
       write (spinner_fail "Error during scan") ;;;
       write (console_error (nl ++ "Error details:")) ;;;
       write (console_error (message error)) ;;;
       write (console_error (stack error)) ;;;
       process_exit 1)
    (c <- read_connection ;;
     match c with
     | Some c => await (endConnection c)
     | None => ret tt
     end).

(** *** The script, run as the main module

    [scanDatabase().catch(error => { ...; process.exit(1) })]; a process whose
    work is over, and that did not call [process.exit], ends with code 0. *)
Record Run := {
  exitCode : Z;
  output : list Output;
  scan : option Scan
}.

Definition main (env : Env) (mysql : Mysql) : Run :=
  match scanDatabase env mysql {| written := []; connection := None |} with
  | (Done s, p) =>
      {| exitCode := 0; output := written p; scan := Some s |}
  | (Raised e, p) =>
      {| exitCode := 1;
         output := written p ++ [console_error ("Fatal error: " ++ message e)];
         scan := None |}
  | (Exited code, p) =>
      {| exitCode := code; output := written p; scan := None |}
  end.

(** *** A MySQL server

    What a server answers to the four statements.  A string column has a
    collation, which is PAD SPACE or NO PAD: under the first, two strings
    are compared without regard to the spaces at their ends; under the
    second, as they are. *)

(** A row of a table, by its [id] and the value of the column at hand;
    [None] is [NULL]. *)
Record StoredRow := {
  stored_id : Z;
  stored_value : option string
}.

Inductive Collation :=
| PAD_SPACE
| NO_PAD.

Definition isSpace (c : ascii) : bool := (nat_of_ascii c =? 32)%nat.

(** [TRIM(v)]: the spaces at both ends removed. *)
Definition TRIM (v : string) : string := stripEnd isSpace (stripStart isSpace v).

(** [v != TRIM(v)] under a NO PAD collation. *)
Definition differs (v : string) : bool := negb (v =? TRIM v)%string.

(** [a = b] under a collation, for two strings that have the same letters:
    the weights that a collation gives to case and accents play no part
    between a value and what [TRIM] leaves of it. *)
Definition equalUnder (k : Collation) (a b : string) : bool :=
  match k with
  | PAD_SPACE => (stripEnd isSpace a =? stripEnd isSpace b)%string
  | NO_PAD => (a =? b)%string
  end.

(** [v != TRIM(v)] under a collation. *)
Definition unequal (k : Collation) (v : string) : bool :=
  negb (equalUnder k v (TRIM v)).

(** [LENGTH(v)]: the bytes of [v]. *)
Definition LENGTH (v : string) : Z := Z.of_nat (String.length v).

(** [CHAR_LENGTH(v)]: the characters of [v], that is its bytes other than the
    continuation bytes of UTF-8. *)
Definition isContinuation (c : ascii) : bool :=
  let n := nat_of_ascii c in (128 <=? n)%nat && (n <? 192)%nat.

Definition CHAR_LENGTH (v : string) : Z :=
  len (filter (fun c => negb (isContinuation c)) (list_ascii_of_string v)).

(** [WHERE `c` IS NOT NULL] *)
Definition notNull (rows : list StoredRow) : list (Z * string) :=
  flat_map (fun r => match stored_value r with
                     | Some v => [(stored_id r, v)]
                     | None => []
                     end) rows.

(** [SUM]: [NULL] when there is no row. *)
Definition SUM (l : list Z) : option Z :=
  match l with
  | [] => None
  | _ => Some (fold_right Z.add 0 l)
  end.

(** The aggregate of [scanColumn]. *)
Definition countRow (k : Collation) (rows : list StoredRow) : Aggregate :=
  let kept := notNull rows in
  {| count_star := len kept;
     sum_case := SUM (map (fun r => if unequal k (snd r) then 1 else 0) kept) |}.

(** The rows of [getSampleRows]; a comparison with [NULL] is not true. *)
Definition sampleRows (k : Collation) (limit : Z) (rows : list StoredRow)
  : list SampleRow :=
  firstn (Z.to_nat limit)
         (map (fun r => {| id := fst r;
                           value := snd r;
                           char_length := CHAR_LENGTH (snd r);
                           byte_length := LENGTH (snd r) |})
              (filter (fun r => unequal k (snd r)) (notNull rows))).

(** A schema: its base tables, the string columns of each with their
    collation, and the rows of a table seen through one column, or the error
    that reading them raises. *)
Record Database := {
  baseTables : list string;
  stringColumns : string -> list string;
  collation : string -> string -> Collation;
  stored : string -> string -> Outcome (list StoredRow)
}.

Definition server (d : Database) : Connection :=
  {| selectTables := fun _ => Returned (map Build_TableRow (baseTables d));
     selectStringColumns :=
       fun _ t => Returned (map Build_ColumnRow (stringColumns d t));
     selectCounts := fun t c => answer (countRow (collation d t c)) (stored d t c);
     selectSamples :=
       fun t c limit => answer (sampleRows (collation d t c) limit) (stored d t c);
     endConnection := Returned tt |}.

(** *** Vocabulary of the properties *)

(** The rows of a column whose value is not [NULL] and satisfies [f]. *)
Definition countWhere (f : string -> bool) (rows : list StoredRow) : Z :=
  len (filter (fun r => match stored_value r with
                        | Some v => f v
                        | None => false
                        end) rows).

(** The rows of a column that are not [NULL], and those among them that
    trimming changes. *)
Definition nonNullRows (rows : list StoredRow) : Z :=
  len (filter (fun r => match stored_value r with
                        | Some _ => true
                        | None => false
                        end) rows).

Definition paddedRows (rows : list StoredRow) : Z :=
  len (filter (fun r => match stored_value r with
                        | Some v => differs v
                        | None => false
                        end) rows).

(** A value that begins with a space that stands before another character,
    and the rows that hold such a value. *)
Definition indented (v : string) : bool :=
  match v with
  | String c _ => isSpace c && negb (stripStart isSpace v =? "")%string
  | EmptyString => false
  end.

Definition indentedRows (rows : list StoredRow) : Z := countWhere indented rows.

(** The rows of a column that the aggregate of [scanColumn] counts, by the
    collation of the column. *)
Definition countedRows (k : Collation) (rows : list StoredRow) : Z :=
  match k with
  | PAD_SPACE => indentedRows rows
  | NO_PAD => paddedRows rows
  end.

(** What [scanColumn] returns for an answer of the server. *)
Definition scanned (t c : string) (a : Aggregate) : ColumnScan :=
  {| table := t;
     column := c;
     totalRows := count_star a;
     trailingSpaceCount :=
       match sum_case a with
       | Some n => text (show n)
       | None => null
       end |}.

(** What [scanColumn] returns for a column that holds [rows]. *)
Definition scanOf (k : Collation) (t c : string) (rows : list StoredRow)
  : ColumnScan :=
  {| table := t;
     column := c;
     totalRows := nonNullRows rows;
     trailingSpaceCount :=
       if nonNullRows rows >? 0 then text (show (countedRows k rows)) else null |}.

(** The entry of the report for one column: none when the column has no
    row that is counted, or cannot be read. *)
Definition entry (d : Database) (t c : string) : list ColumnScan :=
  match stored d t c with
  | Returned rows =>
      if countedRows (collation d t c) rows >? 0
      then [ {| table := t;
                column := c;
                totalRows := nonNullRows rows;
                trailingSpaceCount :=
                  text (show (countedRows (collation d t c) rows)) |} ]
      else []
  | Thrown _ => []
  end.

(** The report of a whole schema, in the order of the scan. *)
Definition report (d : Database) : list ColumnScan :=
  flat_map (fun t => flat_map (entry d t) (stringColumns d t)) (baseTables d).


(** The value of the digits of a numeral written after digits of value
    [acc]. *)
Fixpoint valueFrom (acc : Z) (d : Decimal.uint) : Z :=
  match d with
  | Decimal.Nil => acc
  | Decimal.D0 d => valueFrom (10 * acc + 0) d
  | Decimal.D1 d => valueFrom (10 * acc + 1) d
  | Decimal.D2 d => valueFrom (10 * acc + 2) d
  | Decimal.D3 d => valueFrom (10 * acc + 3) d
  | Decimal.D4 d => valueFrom (10 * acc + 4) d
  | Decimal.D5 d => valueFrom (10 * acc + 5) d
  | Decimal.D6 d => valueFrom (10 * acc + 6) d
  | Decimal.D7 d => valueFrom (10 * acc + 7) d
  | Decimal.D8 d => valueFrom (10 * acc + 8) d
  | Decimal.D9 d => valueFrom (10 * acc + 9) d
  end.

(** The strings of a list, one after the other. *)
Definition join (l : list string) : string := fold_right append "" l.

(** What [totalIssues] holds once the counts of [l] have been added to it:
    the number 0 while there is none, and then the digit 0 followed by the
    digits of each count. *)
Definition total (l : list ColumnScan) : Value :=
  match l with
  | [] => number 0
  | _ => text ("0" ++ join (map (fun r => toString (trailingSpaceCount r)) l))
  end.

(** An entry whose count is the digits of a positive integer. *)
Definition counted (r : ColumnScan) : Prop :=
  exists n, trailingSpaceCount r = text (show n) /\ 0 < n.

(** The state of a scan is sound when every column it reports has such a
    count, and its total is made of these counts. *)
Definition sound (s : Scan) : Prop :=
  totalIssues s = total (results s) /\ Forall counted (results s).

(** What [summary] writes. *)
Definition summaryHeader : Output := console_log (nl ++ "=== Scan Summary ===" ++ nl).

Definition summaryLines (s : Scan) : list Output :=
  ([summaryHeader]
  ++ (if positive (totalIssues s) then
        [console_log ("⚠️  Found " ++ toString (totalIssues s)
                      ++ " rows with trailing spaces across "
                      ++ show (len (results s)) ++ " columns" ++ nl);
         console_log "Affected columns:"]
        ++ map (fun r => console_log
                           ("  • " ++ table r ++ "." ++ column r ++ ": "
                            ++ toString (trailingSpaceCount r) ++ " rows"))
               (results s)
        ++ [console_log (nl ++ "⚠️  Action Required:");
            console_log
              "These trailing spaces may cause issues with MySQL 9.0 NO PAD collation.";
            console_log
              ("Consider running UPDATE queries to trim these values:" ++ nl)]
        ++ map (fun r => console_log (trimStatement r)) (results s)
      else
        [console_log "✓ No trailing spaces detected in any string columns";
         console_log "✓ Database is ready for MySQL 9.0 NO PAD collation"])
  ++ [console_log ""])%list.

(** A statement that neither ends the process nor assigns [connection]. *)
Definition orderly {A} (m : P A) : Prop :=
  forall p r p',
    m p = (r, p') ->
    connection p' = connection p /\ forall code, r <> Exited code.

(** A line other than the first of the summary. *)
Definition beforeSummary (o : Output) : Prop := o <> summaryHeader.

(** An entry whose count is the digits of a positive integer that is not
    greater than the number of its rows. *)
Definition bounded (r : ColumnScan) : Prop :=
  exists n, trailingSpaceCount r = text (show n) /\ 0 < n <= totalRows r.

(** A statement that only adds to what is written, and only lines of one
    kind. *)
Definition writes {A} (Q : Output -> Prop) (m : P A) : Prop :=
  forall p r p',
    m p = (r, p') ->
    exists l, written p' = (written p ++ l)%list /\ Forall Q l.

(** What the script has written when it gives up connecting or scanning. *)
Definition banner (cfg : DbConfig) : list Output :=
  [ console_log (nl ++ "=== MySQL Trailing Space Scanner ===" ++ nl);
    console_log ("Database: " ++ database cfg);
    console_log ("Host: " ++ host cfg ++ ":" ++ port cfg ++ nl);
    spinner_start "Connecting to database..." ].

Definition errorDetails (e : Error) : list Output :=
  [ spinner_fail "Error during scan";
    console_error (nl ++ "Error details:");
    console_error (message e);
    console_error (stack e) ].

Definition usage : list Output :=
  [ console_error "Error: DB_NAME environment variable is required";
    console_log (nl ++ "Usage:");
    console_log
      "  DB_NAME=mydb DB_USER=user DB_PASSWORD=pass node scan-trailing-spaces.js" ].

End Scanner.

(** ** The setters of the [User] model *)

Module UserModel.

Import Js.
Open Scope string_scope.

(** A string is truthy unless it is empty. *)
Definition truthy (v : string) : bool :=
  match v with
  | EmptyString => false
  | _ => true
  end.

(** [set(value) { this.setDataValue(key, value ? value.trim() : value) }],
    the setter of [email], [firstName] and [lastName]: what is stored for
    [value]; [None] is [null] or [undefined]. *)
Definition set (value : option string) : option string :=
  match value with
  | Some v => if truthy v then Some (trim v) else Some v
  | None => None
  end.

End UserModel.

(** ** Concrete inputs *)

Module Sample.

Import Js.
Open Scope string_scope.
Open Scope Z_scope.

(** A clock that advances by one millisecond at each reading. *)
Definition clock (n : nat) : Z := 1700000000000 + Z.of_nat n.

(** A fresh monitor with the default options, in a world without a
    database state. *)
Definition world : Monitor.World unit :=
  {| Monitor.db := tt;
     Monitor.clockReads := 0;
     Monitor.logged := [];
     Monitor.monitor := Monitor.constructor Monitor.noOptions |}.

(** A connection whose statements succeed and raise no warning. *)
Definition quiet : Monitor.Connection unit :=
  {| Monitor.query := fun _ => Monitor.ret (Some []) |}.

(** A connection on which every statement fails. *)
Definition lost : Error :=
  {| message := "Connection lost: The server closed the connection.";
     stack := "Error: Connection lost: The server closed the connection." |}.

Definition broken : Monitor.Connection unit :=
  {| Monitor.query := fun _ => Monitor.throw lost |}.

(** A connection that answers one deprecation warning to every statement. *)
Definition deprecation : Monitor.Warning :=
  {| Monitor.Level := "Warning";
     Monitor.Code := 1287;
     Monitor.Message := "The 'authentication_string' column is deprecated" |}.

Definition warned : Monitor.Connection unit :=
  {| Monitor.query := fun _ => Monitor.ret (Some [deprecation]) |}.

(** The world after [checkWarnings] has recorded that warning for a query
    that took 12 milliseconds. *)
Definition recorded : Monitor.World unit :=
  match Monitor.checkWarnings clock warned "SELECT authentication_string FROM mysql.user"
                              12 world with
  | Some (_, w') => w'
  | None => world
  end.

Definition deprecationRecord : Monitor.WarningData :=
  Monitor.dataOf "SELECT authentication_string FROM mysql.user" 12
                 (clock 0) deprecation.

(** Two answers to the SELECT of [scanTrailingSpaces] on table [users]:
    column [name] has one padded row in both; column [email] cannot be read
    in the first, and has no padded row in the second. *)
Definition denied : Error :=
  {| message := "SELECT command denied to user 'scanner'@'localhost' for column 'email' in table 'users'";
     stack := "Error: SELECT command denied" |}.

Definition paddedName : list Monitor.TrailingRow :=
  [ {| Monitor.row_id := 7;
       Monitor.row_value := "Bob ";
       Monitor.row_char_length := 4;
       Monitor.row_byte_length := 4 |} ].

Definition emailDenied : Monitor.RowSource :=
  fun _ column =>
    if (column =? "email")%string then Thrown denied
    else if (column =? "name")%string then Returned (Some paddedName)
    else Returned (Some []).

Definition emailClean : Monitor.RowSource :=
  fun _ column =>
    if (column =? "name")%string then Returned (Some paddedName)
    else Returned (Some []).

(** The environment of the script, with the name of a schema. *)
Definition env : Scanner.Env :=
  {| Scanner.DB_HOST := None;
     Scanner.DB_PORT := None;
     Scanner.DB_USER := Some "scanner";
     Scanner.DB_PASSWORD := Some "secret";
     Scanner.DB_NAME := Some "shop" |}.

Definition row (n : Z) (v : string) : Scanner.StoredRow :=
  {| Scanner.stored_id := n; Scanner.stored_value := Some v |}.

Definition null (n : Z) : Scanner.StoredRow :=
  {| Scanner.stored_id := n; Scanner.stored_value := None |}.

(** Ten addresses, three of them padded. *)
Definition emails : list Scanner.StoredRow :=
  [ row 1 "abc "; row 2 "xy "; row 3 "z  "; row 4 "d@shop.test";
    row 5 "e@shop.test"; row 6 "f@shop.test"; row 7 "g@shop.test";
    row 8 "h@shop.test"; row 9 "i@shop.test"; row 10 "j@shop.test" ].

Definition names : list Scanner.StoredRow :=
  [ row 1 "Ann"; row 2 "Bob "; null 3 ].

(** A schema of one table, [users], with the columns [email] and [name], and
    the same schema when [email] cannot be read. *)
Definition shop : Scanner.Database :=
  {| Scanner.baseTables := ["users"];
     Scanner.stringColumns := fun _ => ["email"; "name"];
     Scanner.collation := fun _ _ => Scanner.NO_PAD;
     Scanner.stored :=
       fun _ column =>
         if (column =? "email")%string then Returned emails
         else Returned names |}.


Definition shopDenied : Scanner.Database :=
  {| Scanner.baseTables := ["users"];
     Scanner.stringColumns := fun _ => ["email"; "name"];
     Scanner.collation := fun _ _ => Scanner.NO_PAD;
     Scanner.stored :=
       fun _ column =>
         if (column =? "email")%string then Thrown denied
         else Returned names |}.


(** [mysql.createConnection] to a given schema. *)
Definition connectTo (d : Scanner.Database) : Scanner.Mysql :=
  {| Scanner.createConnection := fun _ => Returned (Scanner.server d) |}.


(** A row whose value has a space at its start only. *)
Definition leading : Monitor.TrailingRow :=
  {| Monitor.row_id := 8;
     Monitor.row_value := " Ann";
     Monitor.row_char_length := 4;
     Monitor.row_byte_length := 4 |}.

(** The deprecation warning, in capitals and with another level and code. *)
Definition shouted : Monitor.Warning :=
  {| Monitor.Level := "Note";
     Monitor.Code := 3090;
     Monitor.Message := "THE 'AUTHENTICATION_STRING' COLUMN IS DEPRECATED" |}.

(** The world after [checkWarnings] was told of a query of two seconds, by a
    monitor with the default options and by one that does not track slow
    queries. *)
Definition slowed : Monitor.World unit :=
  match Monitor.checkWarnings clock quiet "SELECT SLEEP(2)" 2000 world with
  | Some (_, w') => w'
  | None => world
  end.

Definition untrackedWorld : Monitor.World unit :=
  {| Monitor.db := tt;
     Monitor.clockReads := 0;
     Monitor.logged := [];
     Monitor.monitor :=
       Monitor.constructor
         {| Monitor.opt_logWarnings := None;
            Monitor.opt_trackSlowQueries := Some false;
            Monitor.opt_slowQueryThreshold := None |} |}.

Definition untracked : Monitor.World unit :=
  match Monitor.checkWarnings clock quiet "SELECT SLEEP(2)" 2000 untrackedWorld with
  | Some (_, w') => w'
  | None => untrackedWorld
  end.

(** An environment without the name of a schema. *)
Definition noName : Scanner.Env :=
  {| Scanner.DB_HOST := None;
     Scanner.DB_PORT := None;
     Scanner.DB_USER := Some "scanner";
     Scanner.DB_PASSWORD := Some "secret";
     Scanner.DB_NAME := None |}.

(** A server that refuses the connection, and one whose connection cannot
    be closed. *)
Definition refused : Scanner.Mysql :=
  {| Scanner.createConnection := fun _ => Thrown lost |}.

Definition unclosable : Scanner.Connection :=
  {| Scanner.selectTables := Scanner.selectTables (Scanner.server shop);
     Scanner.selectStringColumns := Scanner.selectStringColumns (Scanner.server shop);
     Scanner.selectCounts := Scanner.selectCounts (Scanner.server shop);
     Scanner.selectSamples := Scanner.selectSamples (Scanner.server shop);
     Scanner.endConnection := Thrown lost |}.

Definition halfOpen : Scanner.Mysql :=
  {| Scanner.createConnection := fun _ => Returned unclosable |}.

(** The entry of the report of [shop] for the addresses. *)
Definition emailEntry : Scanner.ColumnScan :=
  {| Scanner.table := "users";
     Scanner.column := "email";
     Scanner.totalRows := 10;
     Scanner.trailingSpaceCount := Scanner.text "3" |}.

End Sample.

(** * Properties *)

(** ** Strings *)

Section Strings.

Import Js Monitor.
Open Scope string_scope.

Lemma prefix_append k s : prefix k s = true <-> exists t, s = k ++ t.
Proof.
  revert s; induction k as [|c k IH]; intros s.
  - split; [intros _; now exists s | intros _; now destruct s].
  - destruct s as [|d s]; simpl.
    + split; [discriminate | intros [t H]; discriminate].
    + destruct (ascii_dec c d) as [->|n].
      * rewrite IH. split; intros [t H]; exists t.
        -- now rewrite H.
        -- now inversion H.
      * split; [discriminate | intros [t H]; inversion H; congruence].
Qed.

Lemma includes_occurs s k :
  includes s k = true <-> exists before after, s = before ++ k ++ after.
Proof.
  induction s as [|c s IH]; cbn [includes].
  - destruct (prefix k "") eqn:E.
    + split; [intros _ | trivial].
      apply prefix_append in E as [t E]. now exists "", t.
    + split; [discriminate|].
      intros [[|b before] [after H]]; simpl in H; [|discriminate].
      assert (prefix k "" = true) by (apply prefix_append; eauto).
      congruence.
  - destruct (prefix k (String c s)) eqn:E.
    + split; [intros _ | trivial].
      apply prefix_append in E as [t E]. now exists "", t.
    + rewrite IH. split.
      * intros (before & after & ->). now exists (String c before), after.
      * intros ([|b before] & after & H); simpl in H.
        -- assert (prefix k (String c s) = true) by (apply prefix_append; eauto).
           congruence.
        -- inversion H; subst. now exists before, after.
Qed.

Lemma toLowerCase_append s t :
  toLowerCase (s ++ t) = toLowerCase s ++ toLowerCase t.
Proof. induction s as [|c s IH]; simpl; [reflexivity | now rewrite IH]. Qed.

Lemma toLowerCase_split a : forall s b,
  toLowerCase s = a ++ b ->
  exists s1 s2, s = s1 ++ s2 /\ toLowerCase s1 = a /\ toLowerCase s2 = b.
Proof.
  induction a as [|c a IH]; intros s b H; simpl in H.
  - now exists "", s.
  - destruct s as [|d s]; simpl in H; [discriminate|].
    inversion H as [[Hc Hs]].
    destruct (IH _ _ Hs) as (s1 & s2 & -> & H1 & H2).
    exists (String d s1), s2. simpl. now rewrite H1.
Qed.

Lemma nat_of_ascii_bound c : (nat_of_ascii c < 256)%nat.
Proof. apply nat_ascii_bounded. Qed.

Lemma isUpper_range c :
  isUpper c = true <-> (65 <= nat_of_ascii c <= 90)%nat.
Proof.
  unfold isUpper. rewrite andb_true_iff, !Nat.leb_le. tauto.
Qed.

(** Against a character that is not a capital, two characters are the same
    letter when the first lower-cases to the second. *)
Lemma sameLetter_lowerChar a b :
  isUpper b = false -> (sameLetter a b = true <-> lowerChar a = b).
Proof.
  intros Hb. unfold sameLetter, lowerChar. rewrite Hb. simpl. rewrite orb_false_r.
  destruct (isUpper a) eqn:Ha; simpl.
  - apply isUpper_range in Ha.
    rewrite orb_true_iff, !Nat.eqb_eq. split.
    + intros [H|H].
      * assert (a = b) as -> by
            (rewrite <- (ascii_nat_embedding a), <- (ascii_nat_embedding b); now f_equal).
        apply isUpper_range in Ha. congruence.
      * rewrite <- H. apply ascii_nat_embedding.
    + intros <-. right. rewrite nat_ascii_embedding; lia.
  - rewrite orb_false_r, Nat.eqb_eq. split.
    + intros H. rewrite <- (ascii_nat_embedding a), <- (ascii_nat_embedding b).
      now f_equal.
    + now intros ->.
Qed.

Lemma equalIgnoringCase_lower k : noUpper k = true ->
  forall s, equalIgnoringCase s k <-> toLowerCase s = k.
Proof.
  induction k as [|c k IH]; simpl; intros Hk s.
  - split.
    + intros H; now inversion H.
    + destruct s; [constructor | discriminate].
  - apply andb_true_iff in Hk as [Hc Hk]. apply negb_true_iff in Hc.
    split.
    + intros H. inversion H; subst. simpl.
      f_equal; [now apply sameLetter_lowerChar | now apply IH].
    + destruct s as [|d s]; simpl; [discriminate|].
      intros H. inversion H; subst. constructor.
      * now apply sameLetter_lowerChar.
      * now apply IH.
Qed.

(** A keyword without capitals occurs in the lower-cased message exactly when
    it occurs in the message up to case. *)
Lemma includes_toLowerCase k s : noUpper k = true ->
  includes (toLowerCase s) k = true <-> occursIgnoringCase k s.
Proof.
  intros Hk. rewrite includes_occurs. unfold occursIgnoringCase. split.
  - intros (before & after & H).
    apply toLowerCase_split in H as (s1 & s2 & -> & H1 & H2).
    apply toLowerCase_split in H2 as (s3 & s4 & -> & H3 & H4).
    exists s1, s3, s4. split; [reflexivity|].
    now apply equalIgnoringCase_lower.
  - intros (before & found & after & -> & H).
    apply equalIgnoringCase_lower in H; [|assumption].
    exists (toLowerCase before), (toLowerCase after).
    now rewrite !toLowerCase_append, H.
Qed.

End Strings.

(** ** The classifier, the constructor and the statistics *)

Section Pure.

Import Js Monitor.
Open Scope string_scope.
Open Scope Z_scope.

(** C2. [isDeprecationWarning] answers [true] exactly for the messages in
    which one of the five keywords occurs as a case-insensitive substring,
    and [false] exactly for the messages in which none of them does. *)
Theorem isDeprecationWarning_keywords (warning : Warning) :
  (isDeprecationWarning warning = true <->
   exists keyword,
     In keyword [ "deprecated"; "will be removed"; "is obsolete";
                  "no longer supported"; "authentication_string" ]
     /\ occursIgnoringCase keyword (Message warning))
  /\
  (isDeprecationWarning warning = false <->
   forall keyword,
     In keyword [ "deprecated"; "will be removed"; "is obsolete";
                  "no longer supported"; "authentication_string" ] ->
     ~ occursIgnoringCase keyword (Message warning)).
Proof.
  assert (K : forall keyword, In keyword deprecationKeywords -> noUpper keyword = true).
  { intros keyword H. unfold deprecationKeywords in H. simpl in H.
    repeat (destruct H as [<-|H]; [reflexivity|]). contradiction. }
  assert (T : isDeprecationWarning warning = true <->
              exists keyword, In keyword deprecationKeywords
                              /\ occursIgnoringCase keyword (Message warning)).
  { unfold isDeprecationWarning, some. rewrite existsb_exists.
    split; intros (keyword & Hin & H); exists keyword; (split; [assumption|]);
      apply (@includes_toLowerCase keyword (Message warning) (K keyword Hin));
      assumption. }
  split; [exact T|].
  rewrite <- not_true_iff_false, T. split.
  - intros H keyword Hin Hocc. apply H. now exists keyword.
  - intros H (keyword & Hin & Hocc). exact (H keyword Hin Hocc).
Qed.

(** C10. Without a [slowQueryThreshold] among the options the threshold of
    the monitor is 1000; with one, it is the value given. *)
Theorem constructor_slowQueryThreshold :
  (forall l t,
      slowQueryThreshold
        (options (constructor {| opt_logWarnings := l;
                                 opt_trackSlowQueries := t;
                                 opt_slowQueryThreshold := None |})) = 1000)
  /\
  (forall l t v,
      slowQueryThreshold
        (options (constructor {| opt_logWarnings := l;
                                 opt_trackSlowQueries := t;
                                 opt_slowQueryThreshold := Some v |})) = v).
Proof. split; reflexivity. Qed.

Lemma reduce_sum (l : list SlowQuery) (a : Z) :
  reduce (fun sum q => sum + sq_executionTime q) a l
  = a + fold_right Z.add 0 (map sq_executionTime l).
Proof.
  unfold reduce. revert a.
  induction l as [|q l IH]; intros a; simpl; [lia | rewrite IH; lia].
Qed.

(** C5. [avgSlowQueryTime] is 0 when no slow query is recorded, and
    otherwise the sum of the recorded durations divided by their number. *)
Theorem getStats_avgSlowQueryTime (this : MySQLMonitor) :
  st_avgSlowQueryTime (getStats this) =
  match slowQueries this with
  | [] => 0%Q
  | _ :: _ => mean (map sq_executionTime (slowQueries this))
  end.
Proof.
  unfold getStats, mean; cbn [st_avgSlowQueryTime].
  rewrite reduce_sum, length_map. unfold len.
  destruct (slowQueries this) as [|q l]; [reflexivity|].
  replace (Z.of_nat (List.length (q :: l)) >? 0) with true; [reflexivity|].
  symmetry. apply Z.gtb_lt. simpl List.length. lia.
Qed.

End Pure.

(** ** The monitor at run time *)

Section MonitorRuntime.

Import Js Monitor.
Open Scope string_scope.
Open Scope Z_scope.

Variable DbState : Type.
Variable clock : nat -> Z.

(** One turn of the loop over the warnings. *)
Lemma recordWarning_run queryText executionTime x (w : World DbState) :
  exists w',
    recordWarning clock queryText executionTime x w = Some (Returned tt, w')
    /\ db w' = db w
    /\ clockReads w' = S (clockReads w)
    /\ monitor w'
       = {| options := options (monitor w);
            warnings :=
              warnings (monitor w)
              ++ [dataOf queryText executionTime (clock (clockReads w)) x];
            deprecationWarnings :=
              deprecationWarnings (monitor w)
              ++ (if isDeprecationWarning x
                  then [dataOf queryText executionTime (clock (clockReads w)) x]
                  else []);
            slowQueries := slowQueries (monitor w) |}.
Proof.
  unfold recordWarning, bind, Date_now, push_warnings, push_deprecationWarnings,
    update, this_options, logger, ret, dataOf.
  destruct (isDeprecationWarning x); cbn.
  - destruct (logWarnings (options (monitor w))); cbn;
      eexists; (split; [reflexivity|]); cbn; auto.
  - eexists; (split; [reflexivity|]); cbn. rewrite app_nil_r. auto.
Qed.

Lemma forEach_recordWarning_run queryText executionTime ws : forall w : World DbState,
  exists w',
    forEach ws (recordWarning clock queryText executionTime) w = Some (Returned tt, w')
    /\ db w' = db w
    /\ clockReads w' = (clockReads w + List.length ws)%nat
    /\ monitor w'
       = {| options := options (monitor w);
            warnings :=
              warnings (monitor w)
              ++ records clock queryText executionTime (clockReads w) ws;
            deprecationWarnings :=
              deprecationWarnings (monitor w)
              ++ deprecations clock queryText executionTime (clockReads w) ws;
            slowQueries := slowQueries (monitor w) |}.
Proof.
  induction ws as [|x ws IH]; intros w; cbn [forEach].
  - exists w. unfold ret. cbn. rewrite !app_nil_r, Nat.add_0_r.
    destruct w as [d n l m]; destruct m; auto.
  - destruct (recordWarning_run queryText executionTime x w)
      as (w1 & R & Hd & Hn & Hm).
    destruct (IH w1) as (w2 & F & Hd2 & Hn2 & Hm2).
    exists w2. unfold bind. rewrite R, F.
    split; [reflexivity|]. split; [congruence|].
    split; [cbn [List.length]; lia|].
    rewrite Hm2, Hm, Hn. cbn. now rewrite <- !app_assoc.
Qed.

(** [checkWarnings] when [SHOW WARNINGS] is answered. *)
Lemma checkWarnings_returned (connection : Connection DbState) queryText executionTime w r w1 :
  query connection (SqlText "SHOW WARNINGS") w = Some (Returned r, w1) ->
  exists w',
    checkWarnings clock connection queryText executionTime w = Some (Returned tt, w')
    /\ db w' = db w1
    /\ monitor w'
       = {| options := options (monitor w1);
            warnings :=
              warnings (monitor w1)
              ++ records clock queryText executionTime (clockReads w1) (rowsOf r);
            deprecationWarnings :=
              deprecationWarnings (monitor w1)
              ++ deprecations clock queryText executionTime (clockReads w1) (rowsOf r);
            slowQueries :=
              slowQueries (monitor w1)
              ++ (if trackSlowQueries (options (monitor w1))
                     && (executionTime >? slowQueryThreshold (options (monitor w1)))
                  then [ {| sq_timestamp :=
                              clock (clockReads w1 + List.length (rowsOf r));
                            sq_query := queryText;
                            sq_executionTime := executionTime |} ]
                  else []) |}.
Proof.
  intros Q.
  destruct (forEach_recordWarning_run queryText executionTime (rowsOf r) w1)
    as (w2 & F & Hd & Hn & Hm).
  assert (F' : match r with
               | Some ((_ :: _) as ws) =>
                   forEach ws (recordWarning clock queryText executionTime)
               | _ => ret tt
               end w1 = Some (Returned tt, w2)).
  { destruct r as [[|x ws]|]; exact F. }
  unfold checkWarnings, try_catch. unfold bind at 1. rewrite Q.
  unfold bind at 1. rewrite F'.
  unfold bind, this_options, Date_now, push_slowQueries, update, logger, ret.
  rewrite Hm. cbn.
  destruct (trackSlowQueries (options (monitor w1))
            && (executionTime >? slowQueryThreshold (options (monitor w1)))); cbn.
  - rewrite Hm. cbn.
    destruct (logWarnings (options (monitor w1))); cbn;
      eexists; (split; [reflexivity|]); cbn; rewrite Hn; auto.
  - eexists; (split; [reflexivity|]). rewrite Hm, app_nil_r. auto.
Qed.

(** [checkWarnings] when [SHOW WARNINGS] fails. *)
Lemma checkWarnings_thrown (connection : Connection DbState) queryText executionTime w e w1 :
  query connection (SqlText "SHOW WARNINGS") w = Some (Thrown e, w1) ->
  exists w',
    checkWarnings clock connection queryText executionTime w = Some (Returned tt, w')
    /\ db w' = db w1
    /\ monitor w' = monitor w1.
Proof.
  intros Q. unfold checkWarnings, try_catch. unfold bind at 1. rewrite Q.
  unfold bind, this_options, logger, ret.
  destruct (logWarnings (options (monitor w1))); eexists; cbn; auto.
Qed.

(** [checkWarnings] when [SHOW WARNINGS] never settles. *)
Lemma checkWarnings_unsettled (connection : Connection DbState) queryText executionTime w :
  query connection (SqlText "SHOW WARNINGS") w = None ->
  checkWarnings clock connection queryText executionTime w = None.
Proof.
  intros Q. unfold checkWarnings, try_catch. unfold bind at 1. now rewrite Q.
Qed.

(** Whatever the connection does, [checkWarnings] does not throw. *)
Lemma checkWarnings_never_throws (connection : Connection DbState) queryText executionTime w e w' :
  checkWarnings clock connection queryText executionTime w <> Some (Thrown e, w').
Proof.
  destruct (query connection (SqlText "SHOW WARNINGS") w) as [[[r|e1] w1]|] eqn:Q.
  - destruct (checkWarnings_returned connection queryText executionTime w Q)
      as (w2 & -> & _). discriminate.
  - destruct (checkWarnings_thrown connection queryText executionTime w Q)
      as (w2 & -> & _). discriminate.
  - rewrite (checkWarnings_unsettled connection queryText executionTime w Q).
    discriminate.
Qed.

End MonitorRuntime.

(** ** Slow queries, empty answers, and the two logs *)

Section MonitorClaims.

Import Js Monitor.
Open Scope string_scope.
Open Scope Z_scope.
Open Scope list_scope.

Variable DbState : Type.
Variable clock : nat -> Z.

(** C3, as the code has it.  With slow-query tracking on, and a connection
    that leaves the monitor alone: when [SHOW WARNINGS] is answered,
    [checkWarnings] appends one slow-query record if the execution time is
    greater than the threshold, and leaves the slow queries as they are if it
    is not, so that an execution time equal to the threshold is not recorded;
    when [SHOW WARNINGS] fails, it leaves the slow queries as they are. *)
Theorem checkWarnings_slowQueries
        (connection : Connection DbState) queryText executionTime w o w1 :
  query connection (SqlText "SHOW WARNINGS") w = Some (o, w1) ->
  monitor w1 = monitor w ->
  trackSlowQueries (options (monitor w)) = true ->
  exists w',
    checkWarnings clock connection queryText executionTime w = Some (Returned tt, w')
    /\ match o with
       | Returned _ =>
           (slowQueryThreshold (options (monitor w)) < executionTime
            /\ exists timestamp,
                slowQueries (monitor w')
                = slowQueries (monitor w)
                  ++ [ {| sq_timestamp := timestamp;
                          sq_query := queryText;
                          sq_executionTime := executionTime |} ])
           \/ (executionTime <= slowQueryThreshold (options (monitor w))
               /\ slowQueries (monitor w') = slowQueries (monitor w))
       | Thrown _ => slowQueries (monitor w') = slowQueries (monitor w)
       end.
Proof.
  intros Q M T. destruct o as [r|e].
  - destruct (checkWarnings_returned clock connection queryText executionTime w Q)
      as (w' & C & _ & Hm).
    exists w'. split; [exact C|].
    rewrite Hm, M, T. cbn.
    destruct (Z.gtb_spec executionTime (slowQueryThreshold (options (monitor w)))).
    + left. split; [assumption|]. eexists. reflexivity.
    + right. split; [assumption|]. apply app_nil_r.
  - destruct (checkWarnings_thrown clock connection queryText executionTime w Q)
      as (w' & C & _ & Hm).
    exists w'. split; [exact C|]. now rewrite Hm, M.
Qed.

(** C9, as the code has it.  When [SHOW WARNINGS] is answered without any
    row, [checkWarnings] leaves the options, the warnings and the deprecation
    warnings as they are; the slow queries stay as they are too unless
    tracking is on and the execution time is greater than the threshold, in
    which case one record is appended. *)
Theorem checkWarnings_no_warnings
        (connection : Connection DbState) queryText executionTime w r w1 :
  query connection (SqlText "SHOW WARNINGS") w = Some (Returned r, w1) ->
  monitor w1 = monitor w ->
  rowsOf r = [] ->
  exists w',
    checkWarnings clock connection queryText executionTime w = Some (Returned tt, w')
    /\ options (monitor w') = options (monitor w)
    /\ warnings (monitor w') = warnings (monitor w)
    /\ deprecationWarnings (monitor w') = deprecationWarnings (monitor w)
    /\ (if trackSlowQueries (options (monitor w))
           && (executionTime >? slowQueryThreshold (options (monitor w)))
        then exists timestamp,
            slowQueries (monitor w')
            = slowQueries (monitor w)
              ++ [ {| sq_timestamp := timestamp;
                      sq_query := queryText;
                      sq_executionTime := executionTime |} ]
        else monitor w' = monitor w).
Proof.
  intros Q M E.
  destruct (checkWarnings_returned clock connection queryText executionTime w Q)
    as (w' & C & _ & Hm).
  exists w'. split; [exact C|].
  rewrite Hm, M, E. cbn. rewrite !app_nil_r.
  repeat (split; [reflexivity|]).
  destruct (trackSlowQueries (options (monitor w))
            && (executionTime >? slowQueryThreshold (options (monitor w)))).
  - eexists. reflexivity.
  - rewrite app_nil_r. now destruct (monitor w).
Qed.

Lemma deprecations_records queryText executionTime ws : forall n,
  incl (deprecations clock queryText executionTime n ws)
       (records clock queryText executionTime n ws).
Proof.
  induction ws as [|x ws IH]; intros n d; cbn; [trivial|].
  rewrite in_app_iff. intros [H|H].
  - destruct (isDeprecationWarning x); [|contradiction].
    destruct H as [H|[]]. now left.
  - right. now apply IH.
Qed.

(** [checkWarnings] keeps the deprecation warnings among the warnings. *)
Lemma checkWarnings_keeps_incl
      (connection : Connection DbState) queryText executionTime w o w' :
  plain connection ->
  checkWarnings clock connection queryText executionTime w = Some (o, w') ->
  incl (deprecationWarnings (monitor w)) (warnings (monitor w)) ->
  incl (deprecationWarnings (monitor w')) (warnings (monitor w')).
Proof.
  intros P C I.
  destruct (query connection (SqlText "SHOW WARNINGS") w) as [[[r|e] w1]|] eqn:Q.
  - destruct (checkWarnings_returned clock connection queryText executionTime w Q)
      as (w2 & C2 & _ & Hm).
    rewrite C in C2. inversion C2; subst.
    rewrite Hm, (P _ _ _ _ Q). cbn.
    apply incl_app; [now apply incl_appl | apply incl_appr, deprecations_records].
  - destruct (checkWarnings_thrown clock connection queryText executionTime w Q)
      as (w2 & C2 & _ & Hm).
    rewrite C in C2. inversion C2; subst.
    now rewrite Hm, (P _ _ _ _ Q).
  - rewrite (checkWarnings_unsettled clock connection queryText executionTime w Q) in C.
    discriminate.
Qed.

(** C4. In every state reached by [checkWarnings] and [clear] from a new
    monitor, each record of the deprecation warnings is a record of the
    warnings; and recording a single warning of the deprecation class appends
    its record once to the warnings and once to the deprecation warnings, so
    that the record appears once more in each of them: exactly once when the
    monitor is new, or was cleared. *)
Theorem deprecationWarnings_among_warnings :
  (forall w : World DbState,
      reachable clock w ->
      forall d, In d (deprecationWarnings (monitor w)) -> In d (warnings (monitor w)))
  /\
  (forall (connection : Connection DbState) queryText executionTime w w1 x,
      query connection (SqlText "SHOW WARNINGS") w = Some (Returned (Some [x]), w1) ->
      monitor w1 = monitor w ->
      isDeprecationWarning x = true ->
      exists w',
        checkWarnings clock connection queryText executionTime w = Some (Returned tt, w')
        /\ warnings (monitor w')
           = warnings (monitor w)
             ++ [dataOf queryText executionTime (clock (clockReads w1)) x]
        /\ deprecationWarnings (monitor w')
           = deprecationWarnings (monitor w)
             ++ [dataOf queryText executionTime (clock (clockReads w1)) x]
        /\ occurrences (dataOf queryText executionTime (clock (clockReads w1)) x)
                       (warnings (monitor w'))
           = S (occurrences (dataOf queryText executionTime (clock (clockReads w1)) x)
                            (warnings (monitor w)))
        /\ occurrences (dataOf queryText executionTime (clock (clockReads w1)) x)
                       (deprecationWarnings (monitor w'))
           = S (occurrences (dataOf queryText executionTime (clock (clockReads w1)) x)
                            (deprecationWarnings (monitor w)))).
Proof.
  split.
  - intros w R. change (incl (deprecationWarnings (monitor w)) (warnings (monitor w))).
    induction R as [o d n l | w connection queryText executionTime o w' R IH P C
                    | w o w' R IH C].
    + intros d' [].
    + eapply checkWarnings_keeps_incl; eassumption.
    + unfold clear, update in C. inversion C; subst. intros d' [].
  - intros connection queryText executionTime w w1 x Q M D.
    destruct (checkWarnings_returned clock connection queryText executionTime w Q)
      as (w' & C & _ & Hm).
    exists w'. split; [exact C|].
    rewrite Hm, M. cbn. rewrite D. cbn. rewrite ?app_nil_r.
    unfold occurrences. rewrite !count_occ_app. cbn [count_occ].
    destruct (WarningData_eq_dec _ _) as [_|N]; [|now contradiction N].
    repeat split; lia.
Qed.

(** The function that the middleware stores in [req.db.connection.query]
    hands that same connection to [checkWarnings], whose [SHOW WARNINGS] is
    therefore one more call of the function: however deep the calls are
    followed, none of them settles. *)
Lemma monitoredQuery_unsettled fuel :
  forall (originalQuery : QueryArg -> M DbState QueryResult) args w,
    monitoredQuery clock fuel originalQuery args w = None.
Proof.
  induction fuel as [|fuel IH]; intros originalQuery args w; [reflexivity|].
  cbn [monitoredQuery]. unfold bind at 1. unfold Date_now at 1. cbn beta iota.
  unfold try_catch.
  assert (N : forall queryText executionTime w0,
             checkWarnings clock {| query := monitoredQuery clock fuel originalQuery |}
                           queryText executionTime w0 = None).
  { intros. apply checkWarnings_unsettled. apply IH. }
  unfold bind at 1.
  destruct (originalQuery args _) as [[[r|e] w1]|]; [| |reflexivity].
  - unfold bind at 1. unfold Date_now at 1. cbn beta iota.
    unfold bind at 1. now rewrite N.
  - unfold bind at 1. unfold Date_now at 1. cbn beta iota.
    unfold bind at 1. now rewrite N.
Qed.

(** C1, where the code departs from it.  Once the middleware has run on a
    request that has a connection, a call of [req.db.connection.query] never
    settles, whatever the original [query] does and however deep the nested
    calls are followed: the caller gets neither the result nor the error of
    its query. *)
Theorem middleware_query_never_settles :
  forall fuel (connection : Connection DbState) args w,
    match db_connection
            (createMonitoringMiddleware clock fuel {| db_connection := Some connection |})
    with
    | Some patched => query patched args w = None
    | None => False
    end.
Proof.
  intros fuel connection args w. cbn. apply monitoredQuery_unsettled.
Qed.

End MonitorClaims.

Section MonitorInstances.

Import Js Monitor.
Open Scope string_scope.
Open Scope Z_scope.
Open Scope list_scope.

Lemma plain_ret (r : QueryResult) :
  plain {| query := fun _ : QueryArg => ret (DbState := unit) r |}.
Proof. intros a w o w' H. unfold ret in H. cbn in H. now inversion H. Qed.

(** [checkWarnings_slowQueries] at a query of 1001 milliseconds on a quiet
    connection, the threshold being 1000. *)
Lemma checkWarnings_slowQueries_witness :
  query Sample.quiet (SqlText "SHOW WARNINGS") Sample.world
  = Some (Returned (Some []), Sample.world)
  /\ trackSlowQueries (options (monitor Sample.world)) = true
  /\ exists w',
      checkWarnings Sample.clock Sample.quiet "SELECT 1" 1001 Sample.world
      = Some (Returned tt, w')
      /\ ((slowQueryThreshold (options (monitor Sample.world)) < 1001
           /\ exists timestamp,
               slowQueries (monitor w')
               = slowQueries (monitor Sample.world)
                 ++ [ {| sq_timestamp := timestamp;
                         sq_query := "SELECT 1";
                         sq_executionTime := 1001 |} ])
          \/ (1001 <= slowQueryThreshold (options (monitor Sample.world))
              /\ slowQueries (monitor w') = slowQueries (monitor Sample.world))).
Proof.
  split; [reflexivity|]. split; [reflexivity|].
  apply (@checkWarnings_slowQueries unit Sample.clock Sample.quiet "SELECT 1" 1001
                                    Sample.world (Returned (Some [])) Sample.world);
    reflexivity.
Defined.

(** C3 as stated fails: tracking is on and 2000 is greater than the threshold
    of 1000, yet no slow query is recorded when [SHOW WARNINGS] fails. *)
Lemma checkWarnings_slow_query_lost :
  trackSlowQueries (options (monitor Sample.world)) = true
  /\ slowQueryThreshold (options (monitor Sample.world)) = 1000
  /\ exists w',
      checkWarnings Sample.clock Sample.broken "SELECT SLEEP(2)" 2000 Sample.world
      = Some (Returned tt, w')
      /\ slowQueries (monitor w') = [].
Proof.
  split; [reflexivity|]. split; [reflexivity|].
  eexists. split; reflexivity.
Qed.

(** The boundary: 1000 milliseconds against a threshold of 1000 records
    nothing, 1001 milliseconds records one slow query. *)
Example threshold_1000 :
  option_map (fun r => slowQueries (monitor (snd r)))
             (checkWarnings Sample.clock Sample.quiet "SELECT 1" 1000 Sample.world)
  = Some [].
Proof. reflexivity. Qed.

Example threshold_1001 :
  option_map (fun r => slowQueries (monitor (snd r)))
             (checkWarnings Sample.clock Sample.quiet "SELECT 1" 1001 Sample.world)
  = Some [ {| sq_timestamp := Sample.clock 0;
              sq_query := "SELECT 1";
              sq_executionTime := 1001 |} ].
Proof. reflexivity. Qed.

(** [checkWarnings_no_warnings] at a fast query on a quiet connection. *)
Lemma checkWarnings_no_warnings_witness :
  query Sample.quiet (SqlText "SHOW WARNINGS") Sample.world
  = Some (Returned (Some []), Sample.world)
  /\ exists w',
      checkWarnings Sample.clock Sample.quiet "SELECT 1" 3 Sample.world
      = Some (Returned tt, w')
      /\ options (monitor w') = options (monitor Sample.world)
      /\ warnings (monitor w') = warnings (monitor Sample.world)
      /\ deprecationWarnings (monitor w') = deprecationWarnings (monitor Sample.world)
      /\ monitor w' = monitor Sample.world.
Proof.
  split; [reflexivity|].
  exact (@checkWarnings_no_warnings unit Sample.clock Sample.quiet "SELECT 1" 3
                                    Sample.world (Some []) Sample.world
                                    eq_refl eq_refl eq_refl).
Defined.

(** C9 as stated fails: the answer to [SHOW WARNINGS] has no row, and the
    slow queries, empty before the call, hold one record after it. *)
Lemma checkWarnings_no_warnings_slow_query :
  query Sample.quiet (SqlText "SHOW WARNINGS") Sample.world
  = Some (Returned (Some []), Sample.world)
  /\ slowQueries (monitor Sample.world) = []
  /\ exists w',
      checkWarnings Sample.clock Sample.quiet "SELECT SLEEP(2)" 2000 Sample.world
      = Some (Returned tt, w')
      /\ slowQueries (monitor w')
         = [ {| sq_timestamp := 1700000000000;
                sq_query := "SELECT SLEEP(2)";
                sq_executionTime := 2000 |} ].
Proof.
  split; [reflexivity|]. split; [reflexivity|].
  eexists. split; reflexivity.
Qed.

(** The patched [query] at a concrete call: [SELECT 1] on a connection whose
    own [query] succeeds at once. *)
Example monitored_select_1 :
  monitoredQuery Sample.clock 1000 (query Sample.quiet) (SqlText "SELECT 1")
                 Sample.world
  = None.
Proof. apply monitoredQuery_unsettled. Qed.

Lemma reachable_recorded : reachable Sample.clock Sample.recorded.
Proof.
  eapply reach_checkWarnings
    with (w := Sample.world) (connection := Sample.warned) (o := Returned tt)
         (queryText := "SELECT authentication_string FROM mysql.user")
         (executionTime := 12).
  - apply reach_new.
  - apply plain_ret.
  - reflexivity.
Qed.

(** [deprecationWarnings_among_warnings] at the state that holds the record of
    the warning on [authentication_string], and at its recording. *)
Lemma deprecationWarnings_among_warnings_witness :
  (reachable Sample.clock Sample.recorded
   /\ In Sample.deprecationRecord (deprecationWarnings (monitor Sample.recorded))
   /\ In Sample.deprecationRecord (warnings (monitor Sample.recorded)))
  /\
  (isDeprecationWarning Sample.deprecation = true
   /\ exists w',
      checkWarnings Sample.clock Sample.warned
                    "SELECT authentication_string FROM mysql.user" 12 Sample.world
      = Some (Returned tt, w')
      /\ warnings (monitor w') = [] ++ [Sample.deprecationRecord]
      /\ deprecationWarnings (monitor w') = [] ++ [Sample.deprecationRecord]
      /\ occurrences Sample.deprecationRecord (warnings (monitor w')) = 1%nat
      /\ occurrences Sample.deprecationRecord (deprecationWarnings (monitor w'))
         = 1%nat).
Proof.
  split.
  - split; [exact reachable_recorded|].
    split; [left; reflexivity|].
    exact (proj1 (deprecationWarnings_among_warnings unit Sample.clock)
                 Sample.recorded reachable_recorded
                 Sample.deprecationRecord (or_introl eq_refl)).
  - split; [reflexivity|].
    exact (proj2 (deprecationWarnings_among_warnings unit Sample.clock)
                 Sample.warned "SELECT authentication_string FROM mysql.user" 12
                 Sample.world Sample.world Sample.deprecation
                 eq_refl eq_refl eq_refl).
Defined.

End MonitorInstances.

(** ** [scanTrailingSpaces] *)

Section TrailingSpaces.

Import Js Monitor.
Open Scope string_scope.
Open Scope Z_scope.
Open Scope list_scope.

Variable DbState : Type.

Lemma scanTrailingColumn_run (connection : RowSource) tableName column results
      (w : World DbState) :
  exists w',
    scanTrailingColumn connection tableName column results w
    = Some (Returned (results ++ found connection tableName column), w')
    /\ db w' = db w
    /\ monitor w' = monitor w.
Proof.
  unfold scanTrailingColumn, found, try_catch, bind, settle, this_options, logger, ret.
  destruct (connection tableName column) as [[[|r rs]|]|e]; cbn;
    try (destruct (logWarnings (options (monitor w))); cbn);
    rewrite ?app_nil_r; eexists; split; try reflexivity; auto.
Qed.

Lemma scanTrailingColumns_run (connection : RowSource) tableName columns :
  forall results (w : World DbState),
  exists w',
    scanTrailingColumns connection tableName columns results w
    = Some (Returned (results ++ flat_map (found connection tableName) columns), w')
    /\ db w' = db w
    /\ monitor w' = monitor w.
Proof.
  induction columns as [|column columns IH]; intros results w; cbn [scanTrailingColumns].
  - exists w. unfold ret. cbn. now rewrite app_nil_r.
  - destruct (scanTrailingColumn_run connection tableName column results w)
      as (w1 & R & Hd & Hm).
    destruct (IH (results ++ found connection tableName column) w1)
      as (w2 & R2 & Hd2 & Hm2).
    exists w2. unfold bind. rewrite R, R2. cbn. rewrite <- app_assoc.
    split; [reflexivity|]. split; congruence.
Qed.

(** C6, as the code has it.  In [scanTrailingSpaces], a column whose
    statement fails stops nothing: what the scan returns is what the scans of
    the columns before it and of the columns after it return, one after the
    other, and holds no entry for the column that failed. *)
Theorem scanTrailingSpaces_isolates_failure
        (connection : RowSource) tableName before failing after e (w : World DbState) :
  connection tableName failing = Thrown e ->
  exists r1 r2 w1 w2 w',
    scanTrailingSpaces connection tableName before w = Some (Returned r1, w1)
    /\ scanTrailingSpaces connection tableName after w = Some (Returned r2, w2)
    /\ scanTrailingSpaces connection tableName (before ++ failing :: after) w
       = Some (Returned (r1 ++ r2), w')
    /\ monitor w' = monitor w.
Proof.
  intros F. unfold scanTrailingSpaces.
  destruct (scanTrailingColumns_run connection tableName before [] w)
    as (w1 & R1 & _ & _).
  destruct (scanTrailingColumns_run connection tableName after [] w)
    as (w2 & R2 & _ & _).
  destruct (scanTrailingColumns_run connection tableName (before ++ failing :: after) [] w)
    as (w' & R & _ & Hm).
  do 5 eexists. split; [exact R1|]. split; [exact R2|]. split; [|exact Hm].
  rewrite R. cbn. rewrite flat_map_app. cbn [flat_map].
  unfold found at 2. now rewrite F.
Qed.

End TrailingSpaces.

Section TrailingSpacesInstances.

Import Js Monitor.
Open Scope string_scope.
Open Scope Z_scope.
Open Scope list_scope.

(** [scanTrailingSpaces_isolates_failure] on the columns [email], which
    cannot be read, and [name]. *)
Lemma scanTrailingSpaces_isolates_failure_witness :
  Sample.emailDenied "users" "email" = Thrown Sample.denied
  /\ exists r1 r2 w1 w2 w',
      scanTrailingSpaces Sample.emailDenied "users" [] Sample.world
      = Some (Returned r1, w1)
      /\ scanTrailingSpaces Sample.emailDenied "users" ["name"] Sample.world
         = Some (Returned r2, w2)
      /\ scanTrailingSpaces Sample.emailDenied "users" ([] ++ "email" :: ["name"])
                            Sample.world
         = Some (Returned (r1 ++ r2), w')
      /\ monitor w' = monitor Sample.world.
Proof.
  split; [reflexivity|].
  exact (@scanTrailingSpaces_isolates_failure
           unit Sample.emailDenied "users" [] "email" ["name"] Sample.denied
           Sample.world eq_refl).
Defined.

End TrailingSpacesInstances.

(** ** Trimming *)

Section Trimming.

Import Js.
Open Scope string_scope.

Variables strong weak : ascii -> bool.

(** Every character that [weak] drops, [strong] drops too. *)
Hypothesis weaker : forall c, weak c = true -> strong c = true.

Lemma stripStart_head (drop : ascii -> bool) s :
  match stripStart drop s with
  | EmptyString => True
  | String c _ => drop c = false
  end.
Proof.
  induction s as [|c s IH]; cbn; [trivial|].
  destruct (drop c) eqn:E; [exact IH | exact E].
Qed.

Lemma stripEnd_head (drop : ascii -> bool) s :
  match s with
  | EmptyString => True
  | String c _ => drop c = false
  end ->
  match stripEnd drop s with
  | EmptyString => True
  | String c _ => drop c = false
  end.
Proof.
  destruct s as [|c s]; cbn; [trivial|]. intros H.
  destruct (stripEnd drop s); [now rewrite H | exact H].
Qed.

Lemma stripStart_fixed s :
  match s with
  | EmptyString => True
  | String c _ => strong c = false
  end ->
  stripStart weak s = s.
Proof.
  destruct s as [|c s]; cbn; [trivial|]. intros H.
  destruct (weak c) eqn:E; [|reflexivity].
  apply weaker in E. congruence.
Qed.

Lemma stripEnd_cons (drop : ascii -> bool) c s :
  stripEnd drop (String c s)
  = match stripEnd drop s with
    | EmptyString => if drop c then EmptyString else String c EmptyString
    | t => String c t
    end.
Proof. reflexivity. Qed.

Lemma stripEnd_fixed s : stripEnd weak (stripEnd strong s) = stripEnd strong s.
Proof.
  induction s as [|c s IH]; [reflexivity|].
  rewrite (stripEnd_cons strong).
  destruct (stripEnd strong s) as [|d t] eqn:E.
  - destruct (strong c) eqn:S; cbn; [reflexivity|].
    destruct (weak c) eqn:W; [|reflexivity].
    apply weaker in W. congruence.
  - rewrite (stripEnd_cons weak), IH. reflexivity.
Qed.

(** What is left after the stronger trimming, the weaker one leaves as it
    is. *)
Lemma strip_fixed s :
  stripEnd weak (stripStart weak (stripEnd strong (stripStart strong s)))
  = stripEnd strong (stripStart strong s).
Proof.
  rewrite stripStart_fixed; [apply stripEnd_fixed|].
  apply stripEnd_head, stripStart_head.
Qed.

End Trimming.

Section TrimmingFacts.

Import Js.
Open Scope string_scope.

Lemma isSpace_isWhite c : Scanner.isSpace c = true -> isWhite c = true.
Proof.
  unfold Scanner.isSpace, isWhite. intros H. rewrite H. apply orb_true_r.
Qed.

Lemma TRIM_TRIM v : Scanner.TRIM (Scanner.TRIM v) = Scanner.TRIM v.
Proof. unfold Scanner.TRIM. apply strip_fixed. trivial. Qed.

Lemma TRIM_trim v : Scanner.TRIM (trim v) = trim v.
Proof. unfold Scanner.TRIM, trim. apply strip_fixed, isSpace_isWhite. Qed.

Lemma differs_TRIM v : Scanner.differs (Scanner.TRIM v) = false.
Proof.
  unfold Scanner.differs. rewrite TRIM_TRIM, String.eqb_refl. reflexivity.
Qed.

Lemma differs_trim v : Scanner.differs (trim v) = false.
Proof.
  unfold Scanner.differs. rewrite TRIM_trim, String.eqb_refl. reflexivity.
Qed.

(** X1. A value that MySQL's [TRIM] changes, JavaScript's [trim] changes
    too: every row that the SELECT of [scanTrailingSpaces] can answer, the
    rows with spaces at the start included, gets [hasTrailingSpaces] set. *)
Theorem hasTrailingSpaces_of_selected_row (row : Monitor.TrailingRow) :
  Scanner.differs (Monitor.row_value row) = true ->
  Monitor.hasTrailingSpaces (Monitor.scannedRow row) = true.
Proof.
  unfold Monitor.scannedRow; cbn. intros D.
  destruct (String.eqb_spec (Monitor.row_value row) (trim (Monitor.row_value row)))
    as [E|E]; [|reflexivity].
  rewrite E, differs_trim in D. discriminate.
Qed.

(** X2. What a setter of the [User] model stores is never a value that the
    scanner counts: MySQL's [TRIM] leaves it as it is. *)
Theorem set_stores_clean_values (value : option string) v :
  UserModel.set value = Some v -> Scanner.differs v = false.
Proof.
  destruct value as [x|]; cbn; [|discriminate].
  destruct x as [|c x]; cbn [UserModel.truthy]; intros H; inversion H; subst.
  - reflexivity.
  - apply differs_trim.
Qed.

End TrimmingFacts.

(** ** Counts and their digits *)

Section Numbers.

Import Js Scanner.
Open Scope Z_scope.
Open Scope string_scope.

Lemma digitsFrom_numeral d : forall acc,
  digitsFrom acc (NilEmpty.string_of_uint d) = Some (valueFrom acc d).
Proof.
  induction d; intros acc; cbn [NilEmpty.string_of_uint digitsFrom valueFrom];
    [reflexivity | ..];
    (change (digit _) with (Some 0) || change (digit _) with (Some 1)
     || change (digit _) with (Some 2) || change (digit _) with (Some 3)
     || change (digit _) with (Some 4) || change (digit _) with (Some 5)
     || change (digit _) with (Some 6) || change (digit _) with (Some 7)
     || change (digit _) with (Some 8) || change (digit _) with (Some 9));
    apply IHd.
Qed.

Lemma valueFrom_acc d : forall acc,
  valueFrom (Z.pos acc) d = Z.pos (Pos.of_uint_acc d acc).
Proof.
  induction d; intros acc; cbn [valueFrom Pos.of_uint_acc]; [reflexivity | ..];
    rewrite <- IHd; f_equal; lia.
Qed.

Lemma valueFrom_0 d : valueFrom 0 d = Z.of_N (Pos.of_uint d).
Proof.
  induction d; cbn [valueFrom Pos.of_uint]; [reflexivity | exact IHd | ..];
    cbn [Z.mul Z.add]; rewrite valueFrom_acc; reflexivity.
Qed.

(** The digits written after others shift them to the left. *)
Lemma valueFrom_shift d : forall acc,
  valueFrom acc d = acc * 10 ^ Z.of_nat (Decimal.nb_digits d) + valueFrom 0 d.
Proof.
  induction d; intros acc; cbn [valueFrom Decimal.nb_digits];
    [cbn; lia | ..];
    rewrite (IHd (10 * acc + _)), (IHd (10 * 0 + _)), Nat2Z.inj_succ, Z.pow_succ_r
      by lia; ring.
Qed.

Lemma valueFrom_positive p acc :
  0 <= acc -> acc + 1 <= valueFrom acc (Pos.to_uint p).
Proof.
  intros A. rewrite valueFrom_shift, valueFrom_0, Unsigned.of_to. cbn [Z.of_N].
  assert (0 < 10 ^ Z.of_nat (Decimal.nb_digits (Pos.to_uint p)))
    by (apply Z.pow_pos_nonneg; lia).
  nia.
Qed.

(** A numeral begins with a digit. *)
Lemma numeral_head d :
  d <> Decimal.Nil ->
  exists c t k, NilEmpty.string_of_uint d = String c t /\ digit c = Some k.
Proof.
  destruct d; intros N; [congruence | ..]; cbn [NilEmpty.string_of_uint];
    do 3 eexists; (split; [reflexivity|]); reflexivity.
Qed.

(** The digits that the driver writes stand for the number it was sent. *)
Lemma Number_show n : Number (show n) = Some n.
Proof.
  unfold show. destruct n as [|p|p]; cbn [Z.to_int NilEmpty.string_of_int].
  - reflexivity.
  - destruct (numeral_head (Unsigned.to_uint_nonnil p)) as (c & t & k & E & D).
    generalize (digitsFrom_numeral (Pos.to_uint p) 0). rewrite E.
    unfold Number. rewrite D. intros ->.
    now rewrite valueFrom_0, Unsigned.of_to.
  - destruct (numeral_head (Unsigned.to_uint_nonnil p)) as (c & t & k & E & D).
    unfold Number. change (digit "-") with (@None Z).
    change ("-" =? "-")%char with true. cbv iota.
    generalize (digitsFrom_numeral (Pos.to_uint p) 0). rewrite E.
    unfold unsigned. intros ->.
    now rewrite valueFrom_0, Unsigned.of_to.
Qed.

Lemma positive_show n : positive (text (show n)) = (n >? 0).
Proof. unfold positive, toNumber. now rewrite Number_show. Qed.

Lemma digitsFrom_app s1 : forall acc s2,
  digitsFrom acc (s1 ++ s2)
  = match digitsFrom acc s1 with
    | Some a => digitsFrom a s2
    | None => None
    end.
Proof.
  induction s1 as [|c s1 IH]; intros acc s2; cbn [append digitsFrom]; [reflexivity|].
  destruct (digit c); [apply IH | reflexivity].
Qed.

(** The digits of a positive count, written after others. *)
Lemma digitsFrom_show n acc :
  0 < n -> 0 <= acc ->
  exists v, digitsFrom acc (show n) = Some v /\ acc + 1 <= v.
Proof.
  intros N A. destruct n as [|p|p]; try lia.
  unfold show. cbn [Z.to_int NilEmpty.string_of_int].
  rewrite digitsFrom_numeral. eexists. split; [reflexivity|].
  now apply valueFrom_positive.
Qed.

Lemma join_app l1 l2 : join (l1 ++ l2)%list = join l1 ++ join l2.
Proof.
  unfold join. induction l1 as [|s l1 IH]; cbn [app fold_right]; [reflexivity|].
  rewrite IH. induction s as [|c s IHs]; cbn; [reflexivity | now rewrite IHs].
Qed.

Lemma append_empty s : s ++ "" = s.
Proof. induction s as [|c s IH]; cbn; [reflexivity | now rewrite IH]. Qed.

Lemma append_append (a b c : string) : (a ++ b) ++ c = a ++ (b ++ c).
Proof. induction a as [|x a IH]; cbn; [reflexivity | now rewrite IH]. Qed.

(** The total after one more count. *)
Lemma total_plus l r :
  counted r -> total (l ++ [r])%list = plus (total l) (trailingSpaceCount r).
Proof.
  intros (n & E & _). destruct l as [|r0 l]; unfold total; cbn [app map].
  - rewrite E. cbn [join fold_right toString plus]. now rewrite append_empty.
  - rewrite E. cbn [plus toString]. f_equal.
    rewrite map_app. cbn [map]. rewrite E. cbn [toString].
    change (join (?a :: ?m)) with (a ++ join m).
    rewrite join_app. cbn [join fold_right]. rewrite append_empty.
    now rewrite !append_append.
Qed.

Lemma digitsFrom_counts l : forall acc,
  Forall counted l -> 0 <= acc ->
  exists v,
    digitsFrom acc (join (map (fun r => toString (trailingSpaceCount r)) l)) = Some v
    /\ acc + len l <= v.
Proof.
  unfold len.
  induction l as [|r l IH]; intros acc F A; cbn [map join fold_right List.length].
  - exists acc. split; [reflexivity | lia].
  - inversion F as [|r' l' (n & E & N) F']; subst.
    rewrite E. cbn [toString]. fold (join (map (fun r => toString (trailingSpaceCount r)) l)).
    rewrite digitsFrom_app.
    destruct (digitsFrom_show N A) as (v & -> & B).
    destruct (IH v F') as (w & -> & C); [lia|].
    exists w. split; [reflexivity|]. rewrite Nat2Z.inj_succ. lia.
Qed.

(** The number that the total stands for: not less than the number of the
    columns reported. *)
Lemma total_number l :
  Forall counted l ->
  exists v, toNumber (total l) = Some v /\ len l <= v /\ (v = 0 <-> l = []).
Proof.
  intros F. destruct l as [|r l].
  - exists 0. cbn. repeat split; lia.
  - destruct (digitsFrom_counts F (Z.le_refl 0)) as (v & E & B).
    exists v. unfold total, toNumber.
    split; [exact E|]. split; [lia|].
    unfold len in B. cbn [List.length] in B. split; [lia | discriminate].
Qed.

Lemma total_positive l :
  Forall counted l -> (positive (total l) = true <-> l <> []).
Proof.
  intros F. destruct (total_number F) as (v & E & B & Z0).
  unfold positive. rewrite E. split.
  - intros G N. apply Z.gtb_lt in G. apply Z0 in N. lia.
  - intros N. apply Z.gtb_lt.
    assert (v <> 0) by (intros V; now apply Z0 in V). unfold len in B. lia.
Qed.

End Numbers.

(** ** Collations *)

Section Collations.

Import Js Scanner.
Open Scope Z_scope.
Open Scope string_scope.

Lemma stripEnd_TRIM v : stripEnd isSpace (TRIM v) = TRIM v.
Proof. unfold TRIM. apply stripEnd_fixed. trivial. Qed.

(** A string of which [stripStart] leaves nothing, [stripEnd] leaves nothing
    of either. *)
Lemma stripEnd_nothing (drop : ascii -> bool) s :
  stripStart drop s = "" -> stripEnd drop s = "".
Proof.
  induction s as [|c s IH]; cbn; [reflexivity|].
  destruct (drop c) eqn:E; [|discriminate].
  intros H. rewrite (IH H). reflexivity.
Qed.

(** What [stripEnd] leaves of a string that begins with a character to keep
    begins with it. *)
Lemma stripEnd_kept (drop : ascii -> bool) c s :
  drop c = false -> exists t, stripEnd drop (String c s) = String c t.
Proof.
  intros E. cbn. destruct (stripEnd drop s); rewrite ?E; eauto.
Qed.

(** What [stripEnd] leaves of a string with a character to keep, whatever
    stands before. *)
Lemma stripEnd_something (drop : ascii -> bool) s :
  stripStart drop s <> "" -> stripEnd drop s <> "".
Proof.
  induction s as [|c s IH]; cbn; [trivial|].
  destruct (drop c) eqn:E.
  - intros H. specialize (IH H). destruct (stripEnd drop s); [congruence | discriminate].
  - intros _. destruct (stripEnd drop s); rewrite ?E; discriminate.
Qed.

(** Under a NO PAD collation the comparison of the scanner selects what
    trimming changes; under a PAD SPACE collation, what begins with a space
    that stands before another character. *)
Lemma unequal_NO_PAD v : unequal NO_PAD v = differs v.
Proof. reflexivity. Qed.

Lemma unequal_PAD_SPACE v : unequal PAD_SPACE v = indented v.
Proof.
  unfold unequal, equalUnder. rewrite stripEnd_TRIM. unfold TRIM.
  destruct v as [|c t]; [reflexivity|].
  cbn [indented stripStart]. destruct (isSpace c) eqn:S.
  - cbn [andb]. destruct (stripStart isSpace t) as [|c' t'] eqn:T.
    + rewrite (@stripEnd_nothing isSpace (String c t)); [reflexivity|].
      cbn. now rewrite S.
    + pose proof (stripStart_head isSpace t) as K. rewrite T in K.
      destruct (@stripEnd_kept isSpace c' t' K) as (u & ->).
      assert (N : stripEnd isSpace t <> "").
      { apply stripEnd_something. rewrite T. discriminate. }
      rewrite stripEnd_cons. destruct (stripEnd isSpace t) as [|x y]; [congruence|].
      cbn [String.eqb negb]. destruct (Ascii.eqb_spec c c') as [->|_]; [congruence|].
      reflexivity.
  - cbn [andb]. now rewrite String.eqb_refl.
Qed.

(** Whatever the collation, the comparison selects only values that trimming
    changes. *)
Lemma unequal_differs k v : unequal k v = true -> differs v = true.
Proof.
  destruct k; [|trivial]. unfold unequal, differs, equalUnder.
  destruct (String.eqb_spec v (TRIM v)) as [E|_]; [|reflexivity].
  rewrite <- E, String.eqb_refl. discriminate.
Qed.

(** A value with spaces at its end only is not selected under PAD SPACE. *)
Lemma indented_trailing v :
  stripStart isSpace v = v -> indented v = false.
Proof.
  destruct v as [|c t]; [reflexivity|]. cbn [indented stripStart].
  destruct (isSpace c) eqn:S; [|reflexivity].
  intros H. pose proof (stripStart_head isSpace t) as K. rewrite H, S in K.
  discriminate.
Qed.

End Collations.

(** ** Runs of the script *)

Section ScannerRuns.

Import Js Scanner.
Open Scope string_scope.
Open Scope Z_scope.
Open Scope list_scope.

(** A sequence that is done had both of its parts done. *)
Lemma bind_done {A B} (m : P A) (k : A -> P B) p b p' :
  bind m k p = (Done b, p') ->
  exists a p1, m p = (Done a, p1) /\ k a p1 = (Done b, p').
Proof.
  unfold bind. destruct (m p) as [[a|e|c] p1]; intros H; try discriminate.
  now exists a, p1.
Qed.

(** One statement of a sequence that is done, set aside. *)
Ltac unbind H :=
  let a := fresh "a" in
  let q := fresh "q" in
  let E := fresh "E" in
  apply bind_done in H as (a & q & E & H).

Lemma write_run o p :
  write o p = (Done tt, {| written := written p ++ [o]; connection := connection p |}).
Proof. reflexivity. Qed.

Lemma forEach_write {A} (f : A -> Output) l : forall p,
  forEach l (fun x => write (f x)) p
  = (Done tt, {| written := written p ++ map f l; connection := connection p |}).
Proof.
  induction l as [|x l IH]; intros p; cbn [forEach map].
  - unfold ret. rewrite app_nil_r. now destruct p.
  - unfold bind. cbn beta. rewrite write_run, IH. cbn. now rewrite <- app_assoc.
Qed.

Lemma summary_run s p :
  summary s p
  = (Done tt, {| written := written p ++ summaryLines s; connection := connection p |}).
Proof.
  unfold summary, summaryLines, summaryHeader.
  destruct (positive (totalIssues s)); unfold bind;
    repeat (cbn [write written connection fst snd]; rewrite ?forEach_write);
    unfold write; cbn [written connection]; repeat rewrite <- app_assoc;
    reflexivity.
Qed.

(** [scanColumn] hands on what the server answers, the sum as the driver
    writes it. *)
Lemma scanColumn_run connection t c p :
  scanColumn connection t c p
  = match selectCounts connection t c with
    | Returned a => (Done (scanned t c a), p)
    | Thrown e => (Raised e, p)
    end.
Proof.
  unfold scanColumn, bind, await, answer.
  destruct (selectCounts connection t c); reflexivity.
Qed.

(** One turn of the inner loop that is done: the column was read, and it is
    added to the report exactly when the sum is a positive number. *)
Lemma scanOne_done connection t c s p s' p' :
  scanOne connection t c s p = (Done s', p') ->
  exists a,
    selectCounts connection t c = Returned a
    /\ ((exists n, sum_case a = Some n /\ 0 < n
                   /\ s' = {| results := results s ++ [scanned t c a];
                              totalIssues := plus (totalIssues s) (text (show n)) |})
        \/ ((forall n, sum_case a = Some n -> n <= 0) /\ s' = s)).
Proof.
  unfold scanOne. intros H.
  apply bind_done in H as (result & p1 & R & H).
  rewrite scanColumn_run in R.
  destruct (selectCounts connection t c) as [a|e]; [|discriminate].
  inversion R; subst result p1. exists a. split; [reflexivity|].
  destruct (sum_case a) as [n|] eqn:Sum;
    unfold scanned in H; cbn [trailingSpaceCount] in H; rewrite Sum in H.
  - rewrite positive_show in H. destruct (Z.gtb_spec n 0) as [G|G].
    + left. exists n. do 3 unbind H. unfold ret in H. inversion H; subst.
      unfold scanned. rewrite Sum. repeat split. lia.
    + right. unfold ret in H. inversion H; subst. split; [|reflexivity].
      intros m M. inversion M; subst. lia.
  - right. unfold ret in H. cbn in H. inversion H; subst.
    split; [discriminate | reflexivity].
Qed.

Lemma scanOne_sound connection t c s p s' p' :
  scanOne connection t c s p = (Done s', p') -> sound s -> sound s'.
Proof.
  intros H [T F].
  apply scanOne_done in H as (a & _ & [(n & E & N & ->) | (_ & ->)]); [|now split].
  assert (C : counted (scanned t c a)).
  { exists n. unfold scanned. cbn. rewrite E. now split. }
  unfold sound; cbn [results totalIssues]. split.
  - rewrite (total_plus _ C), T. unfold scanned. cbn. now rewrite E.
  - apply Forall_app. split; [assumption | now constructor].
Qed.

(** What every turn of the inner loop keeps, the scan keeps. *)
Section Invariant.

Variable connection : Connection.
Variable I : Scan -> Prop.

Hypothesis step : forall t c s p s' p',
  scanOne connection t c s p = (Done s', p') -> I s -> I s'.

Lemma scanColumns_invariant t columns : forall s p s' p',
  scanColumns connection t columns s p = (Done s', p') -> I s -> I s'.
Proof.
  induction columns as [|c columns IH]; intros s p s' p' H G; cbn [scanColumns] in H.
  - unfold ret in H. now inversion H; subst.
  - apply bind_done in H as (s1 & p1 & H1 & H).
    eapply IH; [exact H|]. eapply step; eassumption.
Qed.

Lemma scanTables_invariant cfg tables : forall s p s' p',
  scanTables cfg connection tables s p = (Done s', p') -> I s -> I s'.
Proof.
  induction tables as [|t tables IH]; intros s p s' p' H G; cbn [scanTables] in H.
  - unfold ret in H. now inversion H; subst.
  - apply bind_done in H as (s1 & p1 & H1 & H).
    eapply IH; [exact H|].
    unfold scanTable in H1. do 2 unbind H1.
    apply bind_done in H1 as (s2 & p2 & H2 & H1). unbind H1.
    unfold ret in H1. inversion H1; subst.
    eapply scanColumns_invariant; eassumption.
Qed.

End Invariant.

(** A scan that is done was made on the connection that was opened, and has
    written its summary last but for the closing of the connection, which
    writes nothing. *)
Lemma scanAll_done cfg mysql p s p' :
  scanAll cfg mysql p = (Done s, p') ->
  exists c tables p0 p1,
    createConnection mysql cfg = Returned c
    /\ scanTables cfg c tables {| results := []; totalIssues := number 0 |} p0
       = (Done s, p1)
    /\ written p' = written p1 ++ summaryLines s.
Proof.
  unfold scanAll. intros H.
  apply bind_done in H as (c & p1 & C & H). do 2 unbind H.
  apply bind_done in H as (tables & p4 & T & H). unbind H.
  apply bind_done in H as (s0 & p6 & S & H).
  apply bind_done in H as (u & p7 & R & H).
  unfold ret in H. inversion H; subst.
  unfold await in C. destruct (createConnection mysql cfg) as [c0|]; [|discriminate].
  inversion C; subst c0.
  exists c, tables. do 2 eexists. split; [reflexivity|]. split; [exact S|].
  rewrite summary_run in R. now inversion R.
Qed.

Lemma scanDatabase_done env mysql p s p' :
  scanDatabase env mysql p = (Done s, p') ->
  exists c tables p0 p1,
    createConnection mysql (dbConfig env) = Returned c
    /\ scanTables (dbConfig env) c tables
                  {| results := []; totalIssues := number 0 |} p0 = (Done s, p1)
    /\ written p' = written p1 ++ summaryLines s.
Proof.
  unfold scanDatabase. intros H. do 5 unbind H.
  unfold try_catch_finally in H.
  destruct (scanAll (dbConfig env) mysql _) as [[s0|e|c] p6] eqn:B.
  - apply scanAll_done in B as (c & tables & p0 & p1 & C & S & W).
    exists c, tables, p0, p1.
    unfold bind, read_connection in H. cbn in H.
    destruct (connection p6) as [c'|].
    + unfold await in H. destruct (endConnection c'); inversion H; subst; eauto.
    + unfold ret in H. inversion H; subst; eauto.
  - cbn in H. discriminate.
  - discriminate.
Qed.

(** What every turn of the inner loop keeps on the connection that the
    script opens holds of the scan that it completes. *)
Lemma main_invariant (I : Scan -> Prop) env mysql s :
  I {| results := []; totalIssues := number 0 |} ->
  (forall connection t c s p s' p',
      createConnection mysql (dbConfig env) = Returned connection ->
      scanOne connection t c s p = (Done s', p') -> I s -> I s') ->
  scan (main env mysql) = Some s ->
  I s /\ exists l, output (main env mysql) = l ++ summaryLines s.
Proof.
  intros I0 step. unfold main.
  destruct (scanDatabase env mysql {| written := []; connection := None |})
    as [[s0|e|c] p] eqn:E; cbn [scan output]; intros H; inversion H; subst.
  apply scanDatabase_done in E as (c & tables & p0 & p1 & C & S & W).
  split; [|eauto].
  eapply scanTables_invariant; [|exact S|exact I0].
  intros t col s1 q s2 q'. now apply step.
Qed.

(** Whatever the connection answers, the scan that the script completes is
    sound. *)
Lemma main_sound env mysql s :
  scan (main env mysql) = Some s ->
  sound s /\ exists l, output (main env mysql) = l ++ summaryLines s.
Proof.
  apply main_invariant.
  - split; [reflexivity | constructor].
  - intros connection t c s1 p s2 p' _. apply scanOne_sound.
Qed.

End ScannerRuns.

(** ** The end of a scan *)

Section ScannerClaims.

Import Js Scanner.
Open Scope string_scope.
Open Scope Z_scope.
Open Scope list_scope.

(** C7, as the code has it.  A scan that runs to its end leaves the exit code
    at 0, with or without symptoms; the test [totalIssues > 0] of its summary
    holds exactly when it reports a column; with symptoms it writes the trim
    statement of every reported column, and without it writes that none was
    detected. *)
Theorem main_completed env mysql s :
  scan (main env mysql) = Some s ->
  exitCode (main env mysql) = 0
  /\ (positive (totalIssues s) = true <-> results s <> [])
  /\ (forall r, In r (results s) ->
                In (console_log (trimStatement r)) (output (main env mysql)))
  /\ (results s = [] ->
      In (console_log "✓ No trailing spaces detected in any string columns")
         (output (main env mysql))).
Proof.
  intros H. destruct (main_sound _ _ H) as [[T F] [l W]].
  pose proof (total_positive F) as G. rewrite <- T in G.
  split.
  { revert H. unfold main.
    destruct (scanDatabase env mysql {| written := []; connection := None |})
      as [[s0|e|c] p]; cbn [scan exitCode]; [reflexivity | discriminate..]. }
  split; [exact G|]. split.
  - intros r Hr. rewrite W. apply in_or_app. right.
    assert (P0 : positive (totalIssues s) = true).
    { apply G. intros N. now rewrite N in Hr. }
    unfold summaryLines. rewrite P0. lazy iota.
    rewrite !in_app_iff. right. left. do 3 right.
    exact (in_map (fun x => console_log (trimStatement x)) (results s) r Hr).
  - intros N. rewrite W. apply in_or_app. right.
    assert (P0 : positive (totalIssues s) = false).
    { destruct (positive (totalIssues s)); [|reflexivity].
      now contradiction (proj1 G eq_refl). }
    unfold summaryLines. rewrite P0. cbn. auto.
Qed.

(** Without the name of a schema the script ends at once, with code 1. *)
Lemma main_without_DB_NAME env mysql :
  isEmpty (database (dbConfig env)) = true ->
  exitCode (main env mysql) = 1 /\ scan (main env mysql) = None.
Proof.
  intros N. unfold main, scanDatabase. rewrite N. split; reflexivity.
Qed.

Lemma notNull_length rows : len (notNull rows) = nonNullRows rows.
Proof.
  unfold len, nonNullRows, len, notNull. f_equal.
  induction rows as [|r rows IH]; cbn; [reflexivity|].
  destruct (stored_value r); cbn; now rewrite IH.
Qed.

Lemma notNull_where (f : string -> bool) rows :
  fold_right Z.add 0 (map (fun r => if f (snd r) then 1 else 0) (notNull rows))
  = countWhere f rows.
Proof.
  unfold countWhere, len, notNull.
  induction rows as [|r rows IH]; cbn; [reflexivity|].
  destruct (stored_value r) as [v|]; cbn; [|exact IH].
  rewrite IH. destruct (f v); cbn [List.length]; lia.
Qed.

Lemma countWhere_ext (f g : string -> bool) rows :
  (forall v, f v = g v) -> countWhere f rows = countWhere g rows.
Proof.
  intros E. unfold countWhere. f_equal. apply filter_ext. intros r.
  destruct (stored_value r); [apply E | reflexivity].
Qed.

Lemma countWhere_le (f g : string -> bool) rows :
  (forall v, f v = true -> g v = true) ->
  0 <= countWhere f rows <= countWhere g rows.
Proof.
  intros E. unfold countWhere, len. split; [lia|]. apply inj_le.
  induction rows as [|r rows IH]; cbn; [lia|].
  destruct (stored_value r) as [v|]; [|exact IH].
  destruct (f v) eqn:F; [rewrite (E v F); cbn; lia|].
  destruct (g v); cbn; lia.
Qed.

Lemma countWhere_nonNull (f : string -> bool) rows : countWhere f rows <= nonNullRows rows.
Proof.
  apply (@countWhere_le f (fun _ => true) rows). trivial.
Qed.

(** The rows that the comparison selects under a collation. *)
Lemma countWhere_unequal k rows :
  countWhere (unequal k) rows = countedRows k rows.
Proof.
  destruct k; cbn [countedRows]; [|reflexivity].
  apply countWhere_ext, unequal_PAD_SPACE.
Qed.

(** Under either collation the rows counted are among those that trimming
    changes, which are among the rows that are not null. *)
Lemma countedRows_bounds k rows :
  0 <= countedRows k rows <= paddedRows rows
  /\ paddedRows rows <= nonNullRows rows.
Proof.
  split.
  - rewrite <- countWhere_unequal.
    apply (@countWhere_le (unequal k) differs rows), unequal_differs.
  - apply (countWhere_nonNull differs).
Qed.

(** The aggregate of a column: its sum is [NULL] when no row is left. *)
Lemma countRow_counts k rows :
  countRow k rows
  = {| count_star := nonNullRows rows;
       sum_case :=
         if nonNullRows rows >? 0 then Some (countedRows k rows) else None |}.
Proof.
  unfold countRow. rewrite <- countWhere_unequal, <- notNull_where, <- notNull_length.
  destruct (notNull rows) as [|r l]; [reflexivity|].
  unfold len. cbn [List.length SUM].
  replace (Z.of_nat (S (List.length l)) >? 0) with true; [reflexivity|].
  symmetry. apply Z.gtb_lt. lia.
Qed.

End ScannerClaims.

(** ** The scan of a schema *)

Section ScannerOnServer.

Import Js Scanner.
Open Scope string_scope.
Open Scope Z_scope.
Open Scope list_scope.

Variable d : Database.

Lemma selectCounts_server t c rows :
  stored d t c = Returned rows ->
  selectCounts (server d) t c
  = Returned {| count_star := nonNullRows rows;
                sum_case :=
                  if nonNullRows rows >? 0
                  then Some (countedRows (collation d t c) rows)
                  else None |}.
Proof.
  intros R. cbn [server selectCounts]. rewrite R. cbn [answer].
  now rewrite countRow_counts.
Qed.

Lemma scanColumn_server t c rows p :
  stored d t c = Returned rows ->
  scanColumn (server d) t c p = (Done (scanOf (collation d t c) t c rows), p).
Proof.
  intros R. rewrite scanColumn_run, (selectCounts_server _ _ R).
  unfold scanned, scanOf. cbn [count_star sum_case].
  now destruct (nonNullRows rows >? 0).
Qed.

Lemma scanOne_server t c s p rows :
  stored d t c = Returned rows ->
  exists s' p',
    scanOne (server d) t c s p = (Done s', p')
    /\ results s' = results s ++ entry d t c
    /\ connection p' = connection p.
Proof.
  intros R. unfold scanOne. unfold bind at 1.
  rewrite (scanColumn_server t c p R). unfold scanOf. cbn [trailingSpaceCount totalRows].
  unfold entry. rewrite R.
  pose proof (countedRows_bounds (collation d t c) rows) as B.
  destruct (nonNullRows rows >? 0) eqn:N.
  - rewrite positive_show.
    destruct (countedRows (collation d t c) rows >? 0) eqn:Pd.
    + unfold bind at 1. rewrite write_run.
      unfold bind at 1. unfold getSampleRows, bind at 1, await.
      cbn [server selectSamples]. rewrite R. cbn [answer].
      unfold ret at 1. unfold bind at 1.
      destruct (len (sampleRows (collation d t c) 5 rows) >? 0).
      * unfold bind at 1. rewrite write_run, forEach_write.
        unfold ret. do 2 eexists. split; [reflexivity|]. cbn. now split.
      * unfold ret. do 2 eexists. split; [reflexivity|]. cbn. now split.
    + unfold ret. exists s, p. now rewrite app_nil_r.
  - unfold ret. cbn [positive toNumber]. exists s, p.
    assert (Pd : (countedRows (collation d t c) rows >? 0) = false).
    { destruct (Z.gtb_spec (countedRows (collation d t c) rows) 0); [|reflexivity].
      destruct (Z.gtb_spec (nonNullRows rows) 0); [discriminate | lia]. }
    now rewrite Pd, app_nil_r.
Qed.








End ScannerOnServer.

Section ScannerInstances.

Import Js Scanner.
Open Scope string_scope.
Open Scope Z_scope.
Open Scope list_scope.


(** C6 as stated fails.  In [scanTrailingSpaces], the report of a scan in
    which column [email] cannot be read is the report of a scan in which
    that column has no padded row: it holds no entry for the failure.  In the
    script, the same failure ends the process with code 1 and without a
    report, where the schema, once readable, has the two columns reported. *)
Lemma scan_failure_leaves_no_entry :
  (Sample.emailDenied "users" "email" = Thrown Sample.denied
   /\ Sample.emailClean "users" "email" = Returned (Some [])
   /\ exists r w1 w2,
       Monitor.scanTrailingSpaces Sample.emailDenied "users" ["email"; "name"]
                                  Sample.world
       = Some (Returned r, w1)
       /\ Monitor.scanTrailingSpaces Sample.emailClean "users" ["email"; "name"]
                                     Sample.world
          = Some (Returned r, w2))
  /\
  (exitCode (main Sample.env (Sample.connectTo Sample.shopDenied)) = 1
   /\ scan (main Sample.env (Sample.connectTo Sample.shopDenied)) = None
   /\ option_map results (scan (main Sample.env (Sample.connectTo Sample.shop)))
      = Some [ {| table := "users"; column := "email";
                  totalRows := 10; trailingSpaceCount := text "3" |};
               {| table := "users"; column := "name";
                  totalRows := 2; trailingSpaceCount := text "1" |} ]).
Proof.
  split.
  - split; [reflexivity|]. split; [reflexivity|].
    do 3 eexists. split; reflexivity.
  - repeat split; vm_compute; reflexivity.
Qed.

(** C7 as stated fails: padded rows are found in two columns, three in one
    and one in the other, and the exit code is 0. *)
Lemma main_exits_zero_with_symptoms :
  exitCode (main Sample.env (Sample.connectTo Sample.shop)) = 0
  /\ option_map (fun s => map trailingSpaceCount (results s))
                (scan (main Sample.env (Sample.connectTo Sample.shop)))
     = Some [text "3"; text "1"]
  /\ option_map (fun s => positive (totalIssues s))
                (scan (main Sample.env (Sample.connectTo Sample.shop)))
     = Some true.
Proof. repeat split; vm_compute; reflexivity. Qed.

(** [main_completed] at the scan of the schema [shop]. *)
Lemma main_completed_witness :
  scan (main Sample.env (Sample.connectTo Sample.shop))
  = Some {| results := report Sample.shop; totalIssues := total (report Sample.shop) |}
  /\ exitCode (main Sample.env (Sample.connectTo Sample.shop)) = 0
  /\ (positive (total (report Sample.shop)) = true <-> report Sample.shop <> [])
  /\ (forall r, In r (report Sample.shop) ->
                In (console_log (trimStatement r))
                   (output (main Sample.env (Sample.connectTo Sample.shop))))
  /\ (report Sample.shop = [] ->
      In (console_log "✓ No trailing spaces detected in any string columns")
         (output (main Sample.env (Sample.connectTo Sample.shop)))).
Proof.
  split; [vm_compute; reflexivity|].
  apply (@main_completed Sample.env (Sample.connectTo Sample.shop)
                         {| results := report Sample.shop;
                            totalIssues := total (report Sample.shop) |}).
  vm_compute; reflexivity.
Defined.



End ScannerInstances.

(** * More of the two programs *)

(** ** The classifier and the case of letters *)

Section CaseFacts.

Import Js Monitor.
Open Scope string_scope.

Lemma sameLetter_lowerChars a b :
  sameLetter a b = true -> lowerChar a = lowerChar b.
Proof.
  unfold sameLetter. rewrite !orb_true_iff, !andb_true_iff, !Nat.eqb_eq.
  intros [[H|[U H]]|[U H]].
  - rewrite <- (ascii_nat_embedding a), <- (ascii_nat_embedding b). now rewrite H.
  - unfold lowerChar at 1. rewrite U, <- H, ascii_nat_embedding.
    unfold lowerChar, isUpper. apply isUpper_range in U.
    replace (nat_of_ascii b <=? 90)%nat with false; [now rewrite andb_false_r|].
    symmetry. apply Nat.leb_gt. lia.
  - unfold lowerChar at 2. rewrite U, <- H, ascii_nat_embedding.
    unfold lowerChar, isUpper. apply isUpper_range in U.
    replace (nat_of_ascii a <=? 90)%nat with false; [now rewrite andb_false_r|].
    symmetry. apply Nat.leb_gt. lia.
Qed.

Lemma equalIgnoringCase_toLowerCase s t :
  equalIgnoringCase s t -> toLowerCase s = toLowerCase t.
Proof.
  induction 1 as [|a b s t L _ IH]; cbn; [reflexivity|].
  now rewrite (sameLetter_lowerChars a b L), IH.
Qed.

(** X3. Two warnings whose messages differ only by the case of their letters
    are of the same class, whatever their levels and codes. *)
Theorem isDeprecationWarning_ignores_case (x y : Warning) :
  equalIgnoringCase (Message x) (Message y) ->
  isDeprecationWarning x = isDeprecationWarning y.
Proof.
  intros H. unfold isDeprecationWarning.
  now rewrite (equalIgnoringCase_toLowerCase H).
Qed.

End CaseFacts.

(** ** What [checkWarnings] does to the whole state *)

Section MonitorWorld.

Import Js Monitor.
Open Scope string_scope.
Open Scope Z_scope.
Open Scope list_scope.

Variable DbState : Type.
Variable clock : nat -> Z.

Lemma recordWarning_world queryText executionTime x (w : World DbState) :
  recordWarning clock queryText executionTime x w
  = Some (Returned tt,
          {| db := db w;
             clockReads := S (clockReads w);
             logged :=
               logged w
               ++ (if isDeprecationWarning x && logWarnings (options (monitor w))
                   then [deprecationEvent
                           (dataOf queryText executionTime (clock (clockReads w)) x)]
                   else []);
             monitor :=
               {| options := options (monitor w);
                  warnings :=
                    warnings (monitor w)
                    ++ [dataOf queryText executionTime (clock (clockReads w)) x];
                  deprecationWarnings :=
                    deprecationWarnings (monitor w)
                    ++ (if isDeprecationWarning x
                        then [dataOf queryText executionTime (clock (clockReads w)) x]
                        else []);
                  slowQueries := slowQueries (monitor w) |} |}).
Proof.
  unfold recordWarning, bind, Date_now, push_warnings, push_deprecationWarnings,
    update, this_options, logger, ret, dataOf, deprecationEvent.
  destruct (isDeprecationWarning x); cbn.
  - destruct (logWarnings (options (monitor w))); cbn; rewrite ?app_nil_r; reflexivity.
  - rewrite !app_nil_r. reflexivity.
Qed.

Lemma forEach_recordWarning_world queryText executionTime ws :
  forall w : World DbState,
    forEach ws (recordWarning clock queryText executionTime) w
    = Some (Returned tt,
            {| db := db w;
               clockReads := (clockReads w + List.length ws)%nat;
               logged :=
                 logged w
                 ++ (if logWarnings (options (monitor w))
                     then map deprecationEvent
                              (deprecations clock queryText executionTime
                                            (clockReads w) ws)
                     else []);
               monitor :=
                 {| options := options (monitor w);
                    warnings :=
                      warnings (monitor w)
                      ++ records clock queryText executionTime (clockReads w) ws;
                    deprecationWarnings :=
                      deprecationWarnings (monitor w)
                      ++ deprecations clock queryText executionTime (clockReads w) ws;
                    slowQueries := slowQueries (monitor w) |} |}).
Proof.
  induction ws as [|x ws IH]; intros w; cbn [forEach].
  - unfold ret. cbn. rewrite !app_nil_r, Nat.add_0_r.
    destruct (logWarnings (options (monitor w)));
      rewrite ?app_nil_r; destruct w as [d n l m]; destruct m; reflexivity.
  - unfold bind. rewrite recordWarning_world, IH. cbn.
    rewrite <- !app_assoc. do 3 f_equal.
    + f_equal. lia.
    + destruct (isDeprecationWarning x), (logWarnings (options (monitor w))); cbn;
        reflexivity.
Qed.

(** [checkWarnings], in full, when [SHOW WARNINGS] is answered. *)
Lemma checkWarnings_world_returned
      (connection : Connection DbState) queryText executionTime w r w1 :
  query connection (SqlText "SHOW WARNINGS") w = Some (Returned r, w1) ->
  let o := options (monitor w1) in
  let slow := trackSlowQueries o && (executionTime >? slowQueryThreshold o) in
  checkWarnings clock connection queryText executionTime w
  = Some (Returned tt,
          {| db := db w1;
             clockReads :=
               (clockReads w1 + List.length (rowsOf r) + (if slow then 1 else 0))%nat;
             logged :=
               logged w1
               ++ (if logWarnings o
                   then map deprecationEvent
                            (deprecations clock queryText executionTime
                                          (clockReads w1) (rowsOf r))
                   else [])
               ++ (if slow && logWarnings o
                   then [slowQueryEvent queryText executionTime (slowQueryThreshold o)]
                   else []);
             monitor :=
               {| options := o;
                  warnings :=
                    warnings (monitor w1)
                    ++ records clock queryText executionTime (clockReads w1) (rowsOf r);
                  deprecationWarnings :=
                    deprecationWarnings (monitor w1)
                    ++ deprecations clock queryText executionTime (clockReads w1)
                                    (rowsOf r);
                  slowQueries :=
                    slowQueries (monitor w1)
                    ++ (if slow
                        then [ {| sq_timestamp :=
                                    clock (clockReads w1 + List.length (rowsOf r));
                                  sq_query := queryText;
                                  sq_executionTime := executionTime |} ]
                        else []) |} |}).
Proof.
  intros Q o slow.
  pose proof (forEach_recordWarning_world queryText executionTime (rowsOf r) w1) as F.
  assert (F' : match r with
               | Some ((_ :: _) as ws) =>
                   forEach ws (recordWarning clock queryText executionTime)
               | _ => ret tt
               end w1
               = forEach (rowsOf r) (recordWarning clock queryText executionTime) w1).
  { destruct r as [[|x ws]|]; reflexivity. }
  unfold checkWarnings, try_catch. unfold bind at 1. rewrite Q.
  unfold bind at 1. rewrite F', F.
  unfold bind, this_options, Date_now, push_slowQueries, update, logger, ret,
    slowQueryEvent.
  cbn. fold o. fold slow.
  destruct slow; cbn.
  - destruct (logWarnings o); cbn; rewrite <- ?app_assoc, ?app_nil_r;
      repeat f_equal; lia.
  - rewrite !app_nil_r, Nat.add_0_r. reflexivity.
Qed.

(** [checkWarnings], in full, when [SHOW WARNINGS] fails. *)
Lemma checkWarnings_world_thrown
      (connection : Connection DbState) queryText executionTime w e w1 :
  query connection (SqlText "SHOW WARNINGS") w = Some (Thrown e, w1) ->
  checkWarnings clock connection queryText executionTime w
  = Some (Returned tt,
          {| db := db w1;
             clockReads := clockReads w1;
             logged :=
               logged w1
               ++ (if logWarnings (options (monitor w1)) then [errorEvent e] else []);
             monitor := monitor w1 |}).
Proof.
  intros Q. unfold checkWarnings, try_catch. unfold bind at 1. rewrite Q.
  unfold bind, this_options, logger, ret, errorEvent.
  destruct (logWarnings (options (monitor w1))); cbn; rewrite ?app_nil_r;
    [reflexivity | now destruct w1].
Qed.

End MonitorWorld.

(** ** Invariants of the monitor *)

Section MonitorInvariants.

Import Js Monitor.
Open Scope string_scope.
Open Scope Z_scope.
Open Scope list_scope.

Variable DbState : Type.
Variable clock : nat -> Z.

(** What holds of every new monitor, and is kept by [checkWarnings] and by
    [clear], holds of every state that can be reached. *)
Lemma reachable_invariant (I : MySQLMonitor -> Prop) :
  (forall o, I (constructor o)) ->
  (forall queryText executionTime n rows m,
      I m -> I (afterCheck clock queryText executionTime n rows m)) ->
  (forall m, I m -> I (cleared m)) ->
  forall w : World DbState, reachable clock w -> I (monitor w).
Proof.
  intros New Check Clear w R.
  induction R as [o d n l | w connection queryText executionTime o w' R IH P C
                  | w o w' R IH C].
  - apply New.
  - destruct (query connection (SqlText "SHOW WARNINGS") w) as [[[r|e] w1]|] eqn:Q.
    + rewrite (checkWarnings_world_returned clock connection queryText executionTime w Q)
        in C.
      inversion C; subst; cbn [monitor].
      rewrite <- (P _ _ _ _ Q) in IH.
      exact (Check queryText executionTime (clockReads w1) (rowsOf r) (monitor w1) IH).
    + rewrite (checkWarnings_world_thrown clock connection queryText executionTime w Q)
        in C.
      inversion C; subst; cbn [monitor]. now rewrite (P _ _ _ _ Q).
    + rewrite (checkWarnings_unsettled clock connection queryText executionTime w Q) in C.
      discriminate.
  - unfold clear, update in C. inversion C; subst; cbn [monitor]. now apply Clear.
Qed.

Lemma isDeprecationData_dataOf queryText executionTime timestamp x :
  isDeprecationData (dataOf queryText executionTime timestamp x)
  = isDeprecationWarning x.
Proof. now destruct x. Qed.

Lemma deprecations_filter queryText executionTime ws : forall n,
  deprecations clock queryText executionTime n ws
  = filter isDeprecationData (records clock queryText executionTime n ws).
Proof.
  induction ws as [|x ws IH]; intros n; cbn [deprecations records filter];
    [reflexivity|].
  rewrite isDeprecationData_dataOf, IH.
  now destruct (isDeprecationWarning x).
Qed.

Lemma classified_invariant (w : World DbState) :
  reachable clock w ->
  deprecationWarnings (monitor w) = filter isDeprecationData (warnings (monitor w)).
Proof.
  apply (reachable_invariant
           (fun m => deprecationWarnings m = filter isDeprecationData (warnings m))).
  - reflexivity.
  - intros queryText executionTime n rows m H. cbn.
    now rewrite filter_app, H, deprecations_filter.
  - reflexivity.
Qed.

(** X4. In every state reached by [checkWarnings] and [clear] from a new
    monitor, what [getDeprecationWarnings] returns is the list of the
    warnings whose message is of the deprecation class, in the order of the
    warnings. *)
Theorem getDeprecationWarnings_classified (w : World DbState) :
  reachable clock w ->
  getDeprecationWarnings (monitor w)
  = filter isDeprecationData (warnings (monitor w)).
Proof. exact (@classified_invariant w). Qed.

Lemma above_invariant (w : World DbState) :
  reachable clock w ->
  Forall (fun q => slowQueryThreshold (options (monitor w)) < sq_executionTime q)
         (slowQueries (monitor w)).
Proof.
  apply (reachable_invariant
           (fun m => Forall (fun q => slowQueryThreshold (options m) < sq_executionTime q)
                            (slowQueries m))).
  - constructor.
  - intros queryText executionTime n rows m H.
    cbn. apply Forall_app. split; [exact H|].
    destruct (trackSlowQueries (options m)); cbn; [|constructor].
    destruct (Z.gtb_spec executionTime (slowQueryThreshold (options m)));
      [|constructor].
    constructor; [cbn; lia | constructor].
  - constructor.
Qed.

(** X5. In every such state, every slow query that [getSlowQueries] returns
    took longer than the threshold of the monitor. *)
Theorem getSlowQueries_above_threshold (w : World DbState) :
  reachable clock w ->
  Forall (fun q => slowQueryThreshold (options (monitor w)) < sq_executionTime q)
         (getSlowQueries (monitor w)).
Proof. exact (@above_invariant w). Qed.

Lemma untracked_invariant (w : World DbState) :
  reachable clock w ->
  trackSlowQueries (options (monitor w)) = false -> slowQueries (monitor w) = [].
Proof.
  apply (reachable_invariant
           (fun m => trackSlowQueries (options m) = false -> slowQueries m = [])).
  - reflexivity.
  - intros queryText executionTime n rows m H T. cbn in *. now rewrite T, (H T).
  - reflexivity.
Qed.

(** X6. A monitor made with [trackSlowQueries: false] never holds a slow
    query, however slow the queries it is told of. *)
Theorem slowQueries_untracked (w : World DbState) :
  reachable clock w ->
  trackSlowQueries (options (monitor w)) = false ->
  getSlowQueries (monitor w) = [] /\ st_slowQueries (getStats (monitor w)) = 0.
Proof.
  intros R T. unfold getSlowQueries, getStats; cbn.
  now rewrite (untracked_invariant R T).
Qed.

Lemma sum_above threshold (l : list Z) :
  Forall (fun x => threshold < x) l ->
  threshold * Z.of_nat (List.length l) + Z.of_nat (List.length l)
  <= fold_right Z.add 0 l.
Proof.
  induction 1 as [|x l Hx Hl IH]; cbn [List.length fold_right]; [lia|].
  rewrite Nat2Z.inj_succ. lia.
Qed.

(** X7. In every such state that holds a slow query, the [avgSlowQueryTime]
    of [getStats] is greater than the threshold. *)
Theorem avgSlowQueryTime_above_threshold (w : World DbState) :
  reachable clock w ->
  slowQueries (monitor w) <> [] ->
  Qlt (inject_Z (slowQueryThreshold (options (monitor w))))
      (st_avgSlowQueryTime (getStats (monitor w))).
Proof.
  intros R N.
  assert (F : Forall (fun x => slowQueryThreshold (options (monitor w)) < x)
                     (map sq_executionTime (slowQueries (monitor w)))).
  { apply Forall_map. exact (above_invariant R). }
  apply sum_above in F. rewrite length_map in F.
  unfold getStats; cbn [st_avgSlowQueryTime]. rewrite reduce_sum. unfold len.
  destruct (slowQueries (monitor w)) as [|q l] eqn:E; [congruence|].
  replace (Z.of_nat (List.length (q :: l)) >? 0) with true
    by (symmetry; apply Z.gtb_lt; cbn [List.length]; lia).
  apply Qlt_shift_div_l.
  - change 0%Q with (inject_Z 0). rewrite <- Zlt_Qlt. cbn [List.length]. lia.
  - rewrite <- inject_Z_mult, <- Zlt_Qlt. cbn [List.length] in *. lia.
Qed.

(** X8. In every such state the counts of [getStats] are in order: the
    deprecation warnings are not more than the warnings. *)
Theorem getStats_counts (w : World DbState) :
  reachable clock w ->
  0 <= st_deprecationWarnings (getStats (monitor w))
  <= st_totalWarnings (getStats (monitor w)).
Proof.
  intros R. unfold getStats, len; cbn.
  rewrite (classified_invariant R). split; [lia|]. apply inj_le, filter_length_le.
Qed.

End MonitorInvariants.

(** ** One call of [checkWarnings], [clear] and [scanTrailingSpaces] *)

Section MonitorCalls.

Import Js Monitor.
Open Scope string_scope.
Open Scope Z_scope.
Open Scope list_scope.

Variable DbState : Type.
Variable clock : nat -> Z.

(** X9. [checkWarnings] does not throw, whatever its connection does; and
    when the [SHOW WARNINGS] of its connection settles, by an answer or by an
    error, it returns, with the options of the monitor as they were. *)
Theorem checkWarnings_settles
        (connection : Connection DbState) queryText executionTime w :
  (forall e w', checkWarnings clock connection queryText executionTime w
                <> Some (Thrown e, w'))
  /\
  (forall o w1,
      query connection (SqlText "SHOW WARNINGS") w = Some (o, w1) ->
      exists w',
        checkWarnings clock connection queryText executionTime w
        = Some (Returned tt, w')
        /\ db w' = db w1
        /\ options (monitor w') = options (monitor w1)).
Proof.
  split.
  - intros e w'.
    destruct (query connection (SqlText "SHOW WARNINGS") w) as [[[r|e1] w1]|] eqn:Q.
    + rewrite (checkWarnings_world_returned clock connection queryText executionTime w Q).
      discriminate.
    + rewrite (checkWarnings_world_thrown clock connection queryText executionTime w Q).
      discriminate.
    + rewrite (checkWarnings_unsettled clock connection queryText executionTime w Q).
      discriminate.
  - intros [r|e] w1 Q.
    + rewrite (checkWarnings_world_returned clock connection queryText executionTime w Q).
      eexists. split; [reflexivity|]. split; reflexivity.
    + rewrite (checkWarnings_world_thrown clock connection queryText executionTime w Q).
      eexists. split; [reflexivity|]. split; reflexivity.
Qed.

(** X10. When [SHOW WARNINGS] fails, [checkWarnings] leaves the monitor as the
    query left it, does not read the clock, and logs the error, once, if
    [logWarnings] is on, and nothing if it is off. *)
Theorem checkWarnings_query_failure
        (connection : Connection DbState) queryText executionTime w e w1 :
  query connection (SqlText "SHOW WARNINGS") w = Some (Thrown e, w1) ->
  exists w',
    checkWarnings clock connection queryText executionTime w = Some (Returned tt, w')
    /\ monitor w' = monitor w1
    /\ clockReads w' = clockReads w1
    /\ logged w'
       = logged w1
         ++ (if logWarnings (options (monitor w1)) then [errorEvent e] else []).
Proof.
  intros Q.
  rewrite (checkWarnings_world_thrown clock connection queryText executionTime w Q).
  eexists. split; [reflexivity|]. repeat split.
Qed.

(** X11. When [SHOW WARNINGS] is answered, [checkWarnings] logs nothing if
    [logWarnings] is off; if it is on, it logs one line for each warning of
    the deprecation class, in their order, then one line if it records a
    slow query, and no line for any other warning. *)
Theorem checkWarnings_log_lines
        (connection : Connection DbState) queryText executionTime w r w1 :
  query connection (SqlText "SHOW WARNINGS") w = Some (Returned r, w1) ->
  exists w',
    checkWarnings clock connection queryText executionTime w = Some (Returned tt, w')
    /\ logged w'
       = logged w1
         ++ (if logWarnings (options (monitor w1))
             then map deprecationEvent
                      (filter isDeprecationData
                              (records clock queryText executionTime
                                       (clockReads w1) (rowsOf r)))
                  ++ (if trackSlowQueries (options (monitor w1))
                         && (executionTime >? slowQueryThreshold (options (monitor w1)))
                      then [slowQueryEvent queryText executionTime
                                           (slowQueryThreshold (options (monitor w1)))]
                      else [])
             else []).
Proof.
  intros Q.
  rewrite (checkWarnings_world_returned clock connection queryText executionTime w Q).
  eexists. split; [reflexivity|]. cbn [logged].
  rewrite <- deprecations_filter.
  destruct (logWarnings (options (monitor w1))).
  - now rewrite andb_true_r.
  - now rewrite andb_false_r.
Qed.

Lemma records_kept queryText executionTime ws : forall n,
  map kept (records clock queryText executionTime n ws) = map given ws
  /\ Forall (fun d => wd_query d = queryText /\ wd_executionTime d = executionTime)
            (records clock queryText executionTime n ws).
Proof.
  induction ws as [|x ws IH]; intros n; cbn; [split; constructor|].
  destruct (IH (S n)) as [K F]. split.
  - now rewrite K.
  - constructor; [split; reflexivity | exact F].
Qed.

(** X12. When [SHOW WARNINGS] is answered, [checkWarnings] keeps the warnings
    it held and appends one record for each row of the answer, in the order
    of the rows: a record has the level, the code and the message of its row,
    and the query text and the execution time of the call.  The
    [totalWarnings] of [getStats] grows by the number of rows. *)
Theorem checkWarnings_appends_records
        (connection : Connection DbState) queryText executionTime w r w1 :
  query connection (SqlText "SHOW WARNINGS") w = Some (Returned r, w1) ->
  monitor w1 = monitor w ->
  exists w' ds,
    checkWarnings clock connection queryText executionTime w = Some (Returned tt, w')
    /\ warnings (monitor w') = warnings (monitor w) ++ ds
    /\ map kept ds = map given (rowsOf r)
    /\ Forall (fun d => wd_query d = queryText /\ wd_executionTime d = executionTime) ds
    /\ st_totalWarnings (getStats (monitor w'))
       = st_totalWarnings (getStats (monitor w)) + len (rowsOf r).
Proof.
  intros Q M.
  rewrite (checkWarnings_world_returned clock connection queryText executionTime w Q).
  destruct (records_kept queryText executionTime (rowsOf r) (clockReads w1)) as [K F].
  do 2 eexists. split; [reflexivity|]. cbn [monitor warnings]. rewrite M.
  split; [reflexivity|]. split; [exact K|]. split; [exact F|].
  unfold getStats, len; cbn [st_totalWarnings warnings].
  rewrite length_app, Nat2Z.inj_add. f_equal. f_equal.
  rewrite <- (length_map kept), K, length_map. reflexivity.
Qed.

Lemma options_invariant (w : World DbState) :
  reachable clock w -> exists o, options (monitor w) = options (constructor o).
Proof.
  apply (@reachable_invariant
           DbState clock (fun m => exists o, options m = options (constructor o))).
  - intros o. now exists o.
  - intros queryText executionTime n rows m H. exact H.
  - intros m H. exact H.
Qed.

(** X13. In every state reached from a new monitor, [clear] brings the
    monitor back to a new monitor with the same options: its logs are empty,
    and every count of [getStats], and the average, is 0. *)
Theorem clear_restores_new_monitor (w : World DbState) :
  reachable clock w ->
  exists o w',
    clear w = Some (Returned tt, w')
    /\ options (monitor w) = options (constructor o)
    /\ monitor w' = constructor o
    /\ getStats (monitor w') = noStats.
Proof.
  intros R. destruct (options_invariant R) as [o O].
  exists o. unfold clear, update. eexists. split; [reflexivity|].
  split; [exact O|]. cbn [monitor]. split; [|reflexivity].
  rewrite O. reflexivity.
Qed.




End MonitorCalls.

(** ** How the script ends *)

Section ScannerEnds.

Import Js Scanner.
Open Scope string_scope.
Open Scope Z_scope.
Open Scope list_scope.

Lemma orderly_ret {A} (a : A) : orderly (ret a).
Proof. intros p r p' H. unfold ret in H. inversion H; subst. split; [reflexivity | discriminate]. Qed.

Lemma orderly_await {A} (o : Outcome A) : orderly (await o).
Proof.
  intros p r p' H. unfold await in H.
  destruct o; inversion H; subst; (split; [reflexivity | discriminate]).
Qed.

Lemma orderly_write o : orderly (write o).
Proof.
  intros p r p' H. unfold write in H. inversion H; subst.
  split; [reflexivity | discriminate].
Qed.

Lemma orderly_bind {A B} (m : P A) (k : A -> P B) :
  orderly m -> (forall a, orderly (k a)) -> orderly (bind m k).
Proof.
  intros Hm Hk p r p' H. unfold bind in H.
  destruct (m p) as [[a|e|c] p1] eqn:E; destruct (Hm _ _ _ E) as [C N].
  - destruct (Hk a _ _ _ H) as [C' N']. split; [congruence | exact N'].
  - inversion H; subst. split; [exact C | discriminate].
  - now contradiction (N c).
Qed.

Lemma orderly_forEach {A} (f : A -> P unit) l :
  (forall x, orderly (f x)) -> orderly (forEach l f).
Proof.
  intros Hf. induction l as [|x l IH]; cbn [forEach].
  - apply orderly_ret.
  - apply orderly_bind; [apply Hf | intros _; exact IH].
Qed.

(** The statements of the script that are orderly, one rule at a time. *)
Ltac orderly :=
  repeat first
         [ apply orderly_ret
         | apply orderly_await
         | apply orderly_write
         | apply orderly_bind; [|intros]
         | apply orderly_forEach; intros
         | match goal with
           | |- orderly (if ?b then _ else _) => destruct b
           end
         | assumption ].

Lemma scanOne_orderly connection table column s :
  orderly (scanOne connection table column s).
Proof. unfold scanOne, scanColumn, getSampleRows. orderly. Qed.

Lemma scanColumns_orderly connection table columns :
  forall s, orderly (scanColumns connection table columns s).
Proof.
  induction columns as [|c columns IH]; intros s; cbn [scanColumns].
  - apply orderly_ret.
  - apply orderly_bind; [apply scanOne_orderly | intros; apply IH].
Qed.

Lemma scanTable_orderly cfg connection table s :
  orderly (scanTable cfg connection table s).
Proof.
  unfold scanTable, getStringColumns.
  apply orderly_bind; [apply orderly_write | intros _].
  apply orderly_bind; [orderly | intros columns].
  apply orderly_bind; [apply scanColumns_orderly | intros; orderly].
Qed.

Lemma scanTables_orderly cfg connection tables :
  forall s, orderly (scanTables cfg connection tables s).
Proof.
  induction tables as [|t tables IH]; intros s; cbn [scanTables].
  - apply orderly_ret.
  - apply orderly_bind; [apply scanTable_orderly | intros; apply IH].
Qed.

Lemma summary_orderly s : orderly (summary s).
Proof. unfold summary. orderly. Qed.

(** The [try] block does not end the process, and when it is done the
    variable [connection] holds the connection that was opened. *)
Lemma scanAll_outcome cfg mysql p r p' :
  scanAll cfg mysql p = (r, p') ->
  (forall code, r <> Exited code)
  /\ (forall s, r = Done s ->
                exists c, createConnection mysql cfg = Returned c
                          /\ connection p' = Some c).
Proof.
  unfold scanAll. unfold bind at 1, await at 1.
  destruct (createConnection mysql cfg) as [c|e].
  - unfold bind at 1, assign_connection at 1.
    match goal with
    | |- ?m ?q = _ -> _ =>
        assert (O : orderly m)
    end.
    { unfold getAllTables.
      apply orderly_bind; [apply orderly_write | intros _].
      apply orderly_bind; [orderly | intros tables].
      apply orderly_bind; [apply orderly_write | intros _].
      apply orderly_bind; [apply scanTables_orderly | intros s].
      apply orderly_bind; [apply summary_orderly | intros; apply orderly_ret]. }
    intros H. destruct (O _ _ _ H) as [C N]. split; [exact N|].
    intros s _. exists c. split; [reflexivity | exact C].
  - intros H. inversion H; subst. split; [discriminate|]. discriminate.
Qed.

(** The only code with which the script ends the process is 1. *)
Lemma scanDatabase_exit env mysql p code p' :
  scanDatabase env mysql p = (Exited code, p') -> code = 1.
Proof.
  unfold scanDatabase. destruct (isEmpty (database (dbConfig env))).
  - unfold bind, write, process_exit. cbn. intros H. now inversion H.
  - unfold bind at 1, ret at 1.
    do 4 (unfold bind at 1; rewrite write_run).
    unfold try_catch_finally.
    match goal with
    | |- context [scanAll ?cfg mysql ?q] =>
        destruct (scanAll cfg mysql q) as [[s|e|c] p1] eqn:B
    end.
    + unfold bind, read_connection, await, ret.
      destruct (connection p1) as [c|]; [destruct (endConnection c)|]; discriminate.
    + unfold bind, write, process_exit. cbn. intros H. now inversion H.
    + apply scanAll_outcome in B as [N _]. now contradiction (N c).
Qed.

(** X15. The script ends with code 0 when its scan has run to the end, and
    with code 1 when it has not: there is no other exit code. *)
Theorem main_exit_codes env mysql :
  (exitCode (main env mysql) = 0 /\ exists s, scan (main env mysql) = Some s)
  \/ (exitCode (main env mysql) = 1 /\ scan (main env mysql) = None).
Proof.
  unfold main.
  destruct (scanDatabase env mysql {| written := []; connection := None |})
    as [[s|e|c] p] eqn:E; cbn [exitCode scan].
  - left. split; [reflexivity | now exists s].
  - right. now split.
  - right. apply scanDatabase_exit in E. now split.
Qed.

(** X16. Without [DB_NAME], or with an empty one, the script writes how it is
    used and ends with code 1; nothing of [mysql] is called, so no connection
    is attempted. *)
Theorem main_without_schema_name env :
  DB_NAME env = None \/ DB_NAME env = Some "" ->
  forall mysql,
    main env mysql = {| exitCode := 1; output := usage; scan := None |}.
Proof.
  intros H mysql. unfold main, scanDatabase, dbConfig. cbn [database].
  destruct H as [-> | ->]; reflexivity.
Qed.

(** X17. When the connection cannot be opened, the script writes the message
    and the stack of the error after its banner, and nothing else, and ends
    with code 1. *)
Theorem main_connection_failure env mysql e :
  isEmpty (database (dbConfig env)) = false ->
  createConnection mysql (dbConfig env) = Thrown e ->
  main env mysql
  = {| exitCode := 1;
       output := banner (dbConfig env) ++ errorDetails e;
       scan := None |}.
Proof.
  intros N C. unfold main, scanDatabase. rewrite N.
  unfold try_catch_finally, scanAll. unfold bind, await, write, ret, process_exit.
  cbn. rewrite C. reflexivity.
Qed.

Lemma scanDatabase_not_done env mysql c e p s p' :
  createConnection mysql (dbConfig env) = Returned c ->
  endConnection c = Thrown e ->
  scanDatabase env mysql p <> (Done s, p').
Proof.
  intros C E. unfold scanDatabase.
  destruct (isEmpty (database (dbConfig env))).
  - unfold bind, write, process_exit. cbn. discriminate.
  - unfold bind at 1, ret at 1.
    do 4 (unfold bind at 1; rewrite write_run).
    unfold try_catch_finally.
    match goal with
    | |- context [scanAll ?cfg mysql ?q] =>
        destruct (scanAll cfg mysql q) as [[s0|e0|c0] p1] eqn:B
    end.
    + apply scanAll_outcome in B as [_ B].
      destruct (B s0 eq_refl) as (c' & C' & K).
      rewrite C in C'. inversion C'; subst c'.
      unfold bind, read_connection. rewrite K. unfold await. rewrite E.
      cbn. discriminate.
    + unfold bind, write, process_exit. cbn. discriminate.
    + cbn. discriminate.
Qed.

(** X18. When the connection can be opened but not closed, the script ends
    with code 1, whatever the scan found: a failure of [connection.end()]
    alone is enough. *)
Theorem main_close_failure env mysql c e :
  createConnection mysql (dbConfig env) = Returned c ->
  endConnection c = Thrown e ->
  exitCode (main env mysql) = 1 /\ scan (main env mysql) = None.
Proof.
  intros C E. unfold main.
  destruct (scanDatabase env mysql {| written := []; connection := None |})
    as [[s|e0|code] p] eqn:H; cbn [exitCode scan].
  - now contradiction (scanDatabase_not_done env mysql _ C E H).
  - now split.
  - apply scanDatabase_exit in H. now split.
Qed.

End ScannerEnds.

(** ** Columns that cannot be read *)

Section ScannerWrites.

Import Js Scanner.
Open Scope string_scope.
Open Scope Z_scope.
Open Scope list_scope.

Variable Q : Output -> Prop.

Lemma writes_ret {A} (a : A) : writes Q (ret a).
Proof.
  intros p r p' H. unfold ret in H. inversion H; subst.
  exists []. now rewrite app_nil_r.
Qed.

Lemma writes_await {A} (o : Outcome A) : writes Q (await o).
Proof.
  intros p r p' H. unfold await in H.
  destruct o; inversion H; subst; exists []; now rewrite app_nil_r.
Qed.

Lemma writes_assign c : writes Q (assign_connection c).
Proof.
  intros p r p' H. unfold assign_connection in H. inversion H; subst.
  exists []. cbn. now rewrite app_nil_r.
Qed.

Lemma writes_write o : Q o -> writes Q (write o).
Proof.
  intros Qo p r p' H. unfold write in H. inversion H; subst.
  exists [o]. cbn. split; [reflexivity | now constructor].
Qed.

Lemma writes_bind {A B} (m : P A) (k : A -> P B) :
  writes Q m -> (forall a, writes Q (k a)) -> writes Q (bind m k).
Proof.
  intros Hm Hk p r p' H. unfold bind in H.
  destruct (m p) as [[a|e|c] p1] eqn:E; destruct (Hm _ _ _ E) as (l1 & W1 & F1).
  - destruct (Hk a _ _ _ H) as (l2 & W2 & F2).
    exists (l1 ++ l2). rewrite W2, W1, app_assoc. split; [reflexivity|].
    now apply Forall_app.
  - inversion H; subst. now exists l1.
  - inversion H; subst. now exists l1.
Qed.

Lemma writes_forEach {A} (f : A -> P unit) l :
  (forall x, writes Q (f x)) -> writes Q (forEach l f).
Proof.
  intros Hf. induction l as [|x l IH]; cbn [forEach].
  - apply writes_ret.
  - apply writes_bind; [apply Hf | intros _; exact IH].
Qed.

End ScannerWrites.

Section ScannerColumns.

Import Js Scanner.
Open Scope string_scope.
Open Scope Z_scope.
Open Scope list_scope.

(** A line that does not begin with a line feed is not the first line of
    the summary. *)
Lemma indented_beforeSummary_not c s :
  nat_of_ascii c <> 10%nat -> beforeSummary (console_log (String c s)).
Proof.
  intros N H. apply N.
  apply (f_equal (fun o => match o with
                           | console_log (String c _) => nat_of_ascii c
                           | _ => 0%nat
                           end)) in H.
  exact H.
Qed.

Lemma indented_beforeSummary s : beforeSummary (console_log (String " " s)).
Proof. apply indented_beforeSummary_not. discriminate. Qed.

(** The statements of the loops write no line of the summary. *)
Ltac writes :=
  repeat first
         [ apply writes_ret
         | apply writes_await
         | apply writes_assign
         | apply writes_write; first [ discriminate | apply indented_beforeSummary ]
         | apply writes_bind; [|intros]
         | apply writes_forEach; intros
         | match goal with
           | |- writes _ (if ?b then _ else _) => destruct b
           end
         | assumption ].

Lemma scanOne_writes connection table column s :
  writes beforeSummary (scanOne connection table column s).
Proof. unfold scanOne, scanColumn, getSampleRows. writes. Qed.

Lemma scanColumns_writes connection table columns :
  forall s, writes beforeSummary (scanColumns connection table columns s).
Proof.
  induction columns as [|c columns IH]; intros s; cbn [scanColumns].
  - apply writes_ret.
  - apply writes_bind; [apply scanOne_writes | intros; apply IH].
Qed.

Lemma scanTable_writes cfg connection table s :
  writes beforeSummary (scanTable cfg connection table s).
Proof.
  unfold scanTable, getStringColumns.
  apply writes_bind; [writes | intros _].
  apply writes_bind; [writes | intros columns].
  apply writes_bind; [apply scanColumns_writes | intros; writes].
Qed.

Lemma scanTables_writes cfg connection tables :
  forall s, writes beforeSummary (scanTables cfg connection tables s).
Proof.
  induction tables as [|t tables IH]; intros s; cbn [scanTables].
  - apply writes_ret.
  - apply writes_bind; [apply scanTable_writes | intros; apply IH].
Qed.

(** A sequence that raises an error does so in its first part, or after it
    is done. *)
Lemma bind_raised {A B} (m : P A) (k : A -> P B) p e p' :
  bind m k p = (Raised e, p') ->
  m p = (Raised e, p')
  \/ exists a p1, m p = (Done a, p1) /\ k a p1 = (Raised e, p').
Proof.
  unfold bind. destruct (m p) as [[a|e0|c] p1]; intros H.
  - right. now exists a, p1.
  - left. now inversion H.
  - discriminate.
Qed.

(** The [try] block that raises an error has written no line of the
    summary. *)
Lemma scanAll_raised cfg mysql p e p' :
  scanAll cfg mysql p = (Raised e, p') ->
  exists l, written p' = written p ++ l /\ Forall beforeSummary l.
Proof.
  intros H.
  assert (G : forall A (m : P A) q r q' l0,
             writes beforeSummary m -> m q = (r, q') ->
             written q = written p ++ l0 -> Forall beforeSummary l0 ->
             exists l, written q' = written p ++ l /\ Forall beforeSummary l).
  { intros A m q r q' l0 W E W0 F0. destruct (W _ _ _ E) as (l1 & W1 & F1).
    exists (l0 ++ l1). rewrite W1, W0, app_assoc. split; [reflexivity|].
    now apply Forall_app. }
  assert (Wa : writes beforeSummary (await (createConnection mysql cfg)))
    by apply writes_await.
  assert (Wb : forall c, writes beforeSummary (assign_connection c))
    by (intros; apply writes_assign).
  assert (Wc : writes beforeSummary (write (spinner_succeed "Connected to database")))
    by (apply writes_write; discriminate).
  assert (Wd : forall c, writes beforeSummary (getAllTables cfg c)).
  { intros c. unfold getAllTables.
    apply writes_bind; [apply writes_await | intros; apply writes_ret]. }
  assert (We : forall tables : list string,
             writes beforeSummary
                    (write (console_log (nl ++ "Found " ++ show (len tables)
                                         ++ " tables to scan" ++ nl)%string))).
  { intros tables. apply writes_write. intros K.
    apply (f_equal (fun o => match o with
                             | console_log (String _ (String c _)) => nat_of_ascii c
                             | _ => 0%nat
                             end)) in K.
    vm_compute in K. discriminate. }
  unfold scanAll in H.
  apply bind_raised in H as [H | (c & p1 & E1 & H)].
  { exact (G _ _ _ _ _ [] Wa H (eq_sym (app_nil_r _)) (Forall_nil _)). }
  destruct (G _ _ _ _ _ [] Wa E1 (eq_sym (app_nil_r _)) (Forall_nil _))
    as (l1 & W1 & F1).
  apply bind_raised in H as [H | (u2 & p2 & E2 & H)].
  { exact (G _ _ _ _ _ _ (Wb c) H W1 F1). }
  destruct (G _ _ _ _ _ _ (Wb c) E2 W1 F1) as (l2 & W2 & F2).
  apply bind_raised in H as [H | (u3 & p3 & E3 & H)].
  { exact (G _ _ _ _ _ _ Wc H W2 F2). }
  destruct (G _ _ _ _ _ _ Wc E3 W2 F2) as (l3 & W3 & F3).
  apply bind_raised in H as [H | (tables & p4 & E4 & H)].
  { exact (G _ _ _ _ _ _ (Wd c) H W3 F3). }
  destruct (G _ _ _ _ _ _ (Wd c) E4 W3 F3) as (l4 & W4 & F4).
  apply bind_raised in H as [H | (u5 & p5 & E5 & H)].
  { exact (G _ _ _ _ _ _ (We tables) H W4 F4). }
  destruct (G _ _ _ _ _ _ (We tables) E5 W4 F4) as (l5 & W5 & F5).
  apply bind_raised in H as [H | (s & p6 & E6 & H)].
  { exact (G _ _ _ _ _ _ (@scanTables_writes cfg c tables _) H W5 F5). }
  unfold bind in H. rewrite summary_run in H. unfold ret in H. discriminate.
Qed.

(** When the [try] block raises an error, the script writes the details of
    that error and ends with code 1. *)
Lemma scanDatabase_raised env mysql p e p1 :
  isEmpty (database (dbConfig env)) = false ->
  scanAll (dbConfig env) mysql
          {| written := written p ++ banner (dbConfig env);
             connection := connection p |} = (Raised e, p1) ->
  exists l,
    scanDatabase env mysql p
    = (Exited 1, {| written := written p ++ banner (dbConfig env) ++ l ++ errorDetails e;
                    connection := connection p1 |})
    /\ Forall beforeSummary l.
Proof.
  intros N B. destruct (scanAll_raised _ _ _ B) as (l & W & F).
  exists l. split; [|exact F].
  unfold scanDatabase. rewrite N.
  unfold bind at 1, ret at 1.
  do 4 (unfold bind at 1; rewrite write_run; cbn [written connection]).
  unfold try_catch_finally, banner in *.
  rewrite <- !app_assoc. cbn [app]. rewrite B.
  unfold bind, write, process_exit. cbn [written connection].
  cbn [written] in W. rewrite W. unfold errorDetails.
  rewrite <- !app_assoc. reflexivity.
Qed.

Variable d : Database.

Lemma scanOne_unreadable t c s p e :
  stored d t c = Thrown e ->
  scanOne (server d) t c s p = (Raised e, p).
Proof.
  intros R. unfold scanOne, scanColumn, bind, await. cbn [server selectCounts].
  now rewrite R.
Qed.

Lemma scanColumns_unreadable t c e columns : forall s p,
  In c columns ->
  stored d t c = Thrown e ->
  exists e' p', scanColumns (server d) t columns s p = (Raised e', p').
Proof.
  induction columns as [|h columns IH]; intros s p I R; [contradiction|].
  cbn [scanColumns]. unfold bind.
  destruct (stored d t h) as [rows|e0] eqn:H.
  - destruct (scanOne_server d t h s p H) as (s1 & p1 & E1 & _).
    rewrite E1. destruct I as [->|I]; [congruence|]. now apply IH.
  - rewrite (scanOne_unreadable t h s p H). eauto.
Qed.

(** The error that ends the scan of a table is the error of one of its
    columns. *)
Lemma scanColumns_raised t columns : forall s p e p',
  scanColumns (server d) t columns s p = (Raised e, p') ->
  exists c, In c columns /\ stored d t c = Thrown e.
Proof.
  induction columns as [|h columns IH]; intros s p e p' H; cbn [scanColumns] in H.
  - unfold ret in H. discriminate.
  - apply bind_raised in H as [H | (s1 & p1 & _ & H)].
    + exists h. split; [now left|].
      destruct (stored d t h) as [rows|e0] eqn:R.
      * destruct (scanOne_server d t h s p R) as (s1 & p1 & E1 & _). congruence.
      * rewrite (scanOne_unreadable t h s p R) in H. now inversion H.
    + destruct (IH _ _ _ _ H) as (c & I & R). exists c. split; [now right | exact R].
Qed.

Lemma scanTable_run cfg t s p :
  scanTable cfg (server d) t s p
  = match scanColumns (server d) t (stringColumns d t) s
                      {| written := written p ++ [spinner_start ("Scanning table: " ++ t)%string];
                         connection := connection p |} with
    | (Done s', p') =>
        (Done s', {| written := written p' ++ [spinner_succeed ("Completed: " ++ t)%string];
                     connection := connection p' |})
    | (Raised e, p') => (Raised e, p')
    | (Exited code, p') => (Exited code, p')
    end.
Proof.
  unfold scanTable.
  unfold bind at 1. rewrite write_run.
  unfold bind at 1. unfold getStringColumns, bind at 1, await.
  cbn [server selectStringColumns]. unfold ret at 1.
  rewrite map_map. cbn [COLUMN_NAME]. rewrite map_id.
  unfold bind at 1.
  destruct (scanColumns (server d) t (stringColumns d t) s _) as [[s'|e|code] p'];
    reflexivity.
Qed.

Lemma scanTables_unreadable cfg t c e tables : forall s p,
  In t tables ->
  In c (stringColumns d t) ->
  stored d t c = Thrown e ->
  exists e' p', scanTables cfg (server d) tables s p = (Raised e', p').
Proof.
  induction tables as [|h tables IH]; intros s p I C R; [contradiction|].
  cbn [scanTables]. unfold bind at 1.
  destruct (scanTable cfg (server d) h s p) as [[s1|e1|c1] p1] eqn:E.
  - destruct I as [->|I]; [|now apply IH].
    exfalso. rewrite scanTable_run in E.
    match type of E with
    | context [scanColumns _ _ _ ?s0 ?p0] =>
        destruct (scanColumns_unreadable t c (stringColumns d t) s0 p0 C R)
          as (e' & p' & K)
    end.
    rewrite K in E. discriminate.
  - eauto.
  - destruct (scanTable_orderly cfg (server d) h s p E) as [_ N].
    now contradiction (N c1).
Qed.

(** The error that ends the scan of a schema is the error of one of its
    columns. *)
Lemma scanTables_raised cfg tables : forall s p e p',
  scanTables cfg (server d) tables s p = (Raised e, p') ->
  exists t c, In t tables /\ In c (stringColumns d t) /\ stored d t c = Thrown e.
Proof.
  induction tables as [|h tables IH]; intros s p e p' H; cbn [scanTables] in H.
  - unfold ret in H. discriminate.
  - apply bind_raised in H as [H | (s1 & p1 & _ & H)].
    + rewrite scanTable_run in H.
      destruct (scanColumns (server d) h (stringColumns d h) s _)
        as [[s'|e0|code] q] eqn:K; try discriminate.
      inversion H; subst e0 q.
      destruct (scanColumns_raised _ _ _ _ K) as (c & I & R).
      exists h, c. repeat split; [now left | exact I | exact R].
    + destruct (IH _ _ _ _ H) as (t & c & It & Ic & R).
      exists t, c. repeat split; [now right | exact Ic | exact R].
Qed.

Lemma scanAll_run cfg mysql p :
  createConnection mysql cfg = Returned (server d) ->
  scanAll cfg mysql p
  = match scanTables cfg (server d) (baseTables d)
                     {| results := []; totalIssues := number 0 |}
                     {| written :=
                          written p
                          ++ [spinner_succeed "Connected to database";
                              console_log (nl ++ "Found " ++ show (len (baseTables d))
                                           ++ " tables to scan" ++ nl)%string];
                        connection := Some (server d) |} with
    | (Done s, p') =>
        (Done s, {| written := written p' ++ summaryLines s;
                    connection := connection p' |})
    | (Raised e, p') => (Raised e, p')
    | (Exited code, p') => (Exited code, p')
    end.
Proof.
  intros C. unfold scanAll.
  unfold bind at 1, await at 1. rewrite C.
  unfold bind at 1, assign_connection at 1.
  unfold bind at 1. rewrite write_run. cbn [written connection].
  unfold bind at 1. unfold getAllTables, bind at 1, await at 1.
  cbn [server selectTables]. unfold ret at 1.
  rewrite map_map. cbn [TABLE_NAME]. rewrite map_id.
  unfold bind at 1. rewrite write_run. cbn [written connection].
  unfold bind at 1. rewrite <- app_assoc. cbn [app].
  destruct (scanTables cfg (server d) (baseTables d) _ _) as [[s|e|code] p']; [|reflexivity..].
  unfold bind at 1. rewrite summary_run. reflexivity.
Qed.

(** X19. In the script a column that cannot be read ends the scan: whichever
    column of the schema it is, the process ends with code 1 and without a
    report; after its banner and the lines of the columns scanned so far the
    script writes the details of the error of a column that cannot be read,
    and it writes no line of the summary. *)
Theorem main_unreadable_column env mysql t c e :
  isEmpty (database (dbConfig env)) = false ->
  createConnection mysql (dbConfig env) = Returned (server d) ->
  In t (baseTables d) ->
  In c (stringColumns d t) ->
  stored d t c = Thrown e ->
  exists t' c' e' l,
    In t' (baseTables d) /\ In c' (stringColumns d t')
    /\ stored d t' c' = Thrown e'
    /\ main env mysql
       = {| exitCode := 1;
            output := banner (dbConfig env) ++ l ++ errorDetails e';
            scan := None |}
    /\ ~ In summaryHeader (output (main env mysql)).
Proof.
  intros N C It Ic R.
  pose (p0 := {| written := [] ++ banner (dbConfig env); connection := None |}).
  assert (B : exists e' p1, scanAll (dbConfig env) mysql p0 = (Raised e', p1)
                            /\ exists t' c', In t' (baseTables d)
                                             /\ In c' (stringColumns d t')
                                             /\ stored d t' c' = Thrown e').
  { rewrite (scanAll_run _ mysql p0 C).
    match goal with
    | |- context [scanTables ?cfg _ _ ?s0 ?q0] =>
        destruct (scanTables_unreadable cfg t c (baseTables d) s0 q0 It Ic R)
          as (e' & p' & K);
        rewrite K;
        destruct (scanTables_raised _ _ _ _ K) as (t' & c' & H)
    end.
    exists e', p'. split; [reflexivity | now exists t', c']. }
  destruct B as (e' & p1 & B & t' & c' & It' & Ic' & R').
  destruct (@scanDatabase_raised env mysql {| written := []; connection := None |}
                                 e' p1 N B) as (l & E & F).
  assert (M : main env mysql
              = {| exitCode := 1;
                   output := banner (dbConfig env) ++ l ++ errorDetails e';
                   scan := None |}).
  { unfold main. rewrite E. reflexivity. }
  exists t', c', e', l. repeat split; try assumption.
  rewrite M. cbn [output]. rewrite !in_app_iff. intros [H | [H | H]].
  - unfold banner, summaryHeader in H. cbn [In] in H.
    destruct H as [H | [H | [H | [H | []]]]]; discriminate.
  - rewrite Forall_forall in F. now apply (F _ H).
  - unfold errorDetails, summaryHeader in H. cbn [In] in H.
    destruct H as [H | [H | [H | [H | []]]]]; discriminate.
Qed.

(** X21. Against a server, every entry of the report of a completed scan has
    a count that is the digits of a positive integer, and that integer is
    not greater than the number of the rows of the entry. *)
Theorem report_counts env mysql s r :
  createConnection mysql (dbConfig env) = Returned (server d) ->
  scan (main env mysql) = Some s ->
  In r (results s) ->
  exists n, trailingSpaceCount r = text (show n) /\ 0 < n <= totalRows r.
Proof.
  intros C H I.
  assert (F : Forall bounded (results s)).
  { apply (@main_invariant (fun s => Forall bounded (results s)) env mysql s);
      [constructor | | exact H].
    intros connection t c s1 p s2 p' C' K F.
    rewrite C in C'. inversion C'; subst connection.
    apply scanOne_done in K as (a & A & [(n & E & N & ->) | (_ & ->)]); [|exact F].
    cbn [results]. apply Forall_app. split; [exact F|]. constructor; [|constructor].
    exists n. unfold scanned. cbn [trailingSpaceCount totalRows]. rewrite E.
    split; [reflexivity|].
    cbn [server selectCounts] in A.
    destruct (stored d t c) as [rows|] eqn:R; [|discriminate].
    cbn [answer] in A. rewrite countRow_counts in A. inversion A as [A']; subst a.
    cbn [sum_case count_star] in *.
    destruct (nonNullRows rows >? 0); [|discriminate].
    inversion E; subst n.
    pose proof (countedRows_bounds (collation d t c) rows). lia. }
  rewrite Forall_forall in F. exact (F r I).
Qed.

End ScannerColumns.

(** ** The total of a scan *)

Section ScannerTotals.

Import Js Scanner.
Open Scope string_scope.
Open Scope Z_scope.
Open Scope list_scope.

(** X22. Whatever the connection answers, the total that a completed scan
    reports stands for a number that is at least the number of the columns it
    reports, and that is 0 exactly when it reports none. *)
Theorem main_total_bounds env mysql s :
  scan (main env mysql) = Some s ->
  exists n,
    toNumber (totalIssues s) = Some n
    /\ len (results s) <= n
    /\ (n = 0 <-> results s = []).
Proof.
  intros H. destruct (main_sound _ _ H) as [[T F] _].
  rewrite T. now apply total_number.
Qed.


End ScannerTotals.

(** ** Instances *)

Section MoreInstances.

Import Js.
Open Scope string_scope.
Open Scope Z_scope.
Open Scope list_scope.

(** [hasTrailingSpaces_of_selected_row] at a value with a space at its start
    only. *)
Lemma hasTrailingSpaces_of_selected_row_witness :
  Scanner.differs (Monitor.row_value Sample.leading) = true
  /\ Monitor.hasTrailingSpaces (Monitor.scannedRow Sample.leading) = true.
Proof.
  split; [reflexivity|].
  exact (hasTrailingSpaces_of_selected_row Sample.leading eq_refl).
Defined.

(** [set_stores_clean_values] at an address with spaces around it. *)
Lemma set_stores_clean_values_witness :
  UserModel.set (Some "  ann@shop.test ") = Some "ann@shop.test"
  /\ Scanner.differs "ann@shop.test" = false.
Proof.
  split; [reflexivity|].
  exact (@set_stores_clean_values (Some "  ann@shop.test ") "ann@shop.test" eq_refl).
Defined.

Lemma shouted_same_message :
  Monitor.equalIgnoringCase (Monitor.Message Sample.deprecation)
                            (Monitor.Message Sample.shouted).
Proof. cbn. repeat (constructor; [reflexivity|]). constructor. Qed.

(** [isDeprecationWarning_ignores_case] at the warning in capitals. *)
Lemma isDeprecationWarning_ignores_case_witness :
  Monitor.equalIgnoringCase (Monitor.Message Sample.deprecation)
                            (Monitor.Message Sample.shouted)
  /\ Monitor.isDeprecationWarning Sample.deprecation
     = Monitor.isDeprecationWarning Sample.shouted.
Proof.
  split; [exact shouted_same_message|].
  exact (isDeprecationWarning_ignores_case Sample.deprecation Sample.shouted
                                           shouted_same_message).
Defined.

Lemma reachable_slowed : Monitor.reachable Sample.clock Sample.slowed.
Proof.
  eapply Monitor.reach_checkWarnings
    with (w := Sample.world) (connection := Sample.quiet) (o := Returned tt)
         (queryText := "SELECT SLEEP(2)") (executionTime := 2000).
  - apply Monitor.reach_new.
  - apply plain_ret.
  - reflexivity.
Qed.

Lemma reachable_untracked : Monitor.reachable Sample.clock Sample.untracked.
Proof.
  eapply Monitor.reach_checkWarnings
    with (w := Sample.untrackedWorld) (connection := Sample.quiet) (o := Returned tt)
         (queryText := "SELECT SLEEP(2)") (executionTime := 2000).
  - apply Monitor.reach_new.
  - apply plain_ret.
  - reflexivity.
Qed.

(** [getDeprecationWarnings_classified] at the state that holds the record of
    the warning on [authentication_string]. *)
Lemma getDeprecationWarnings_classified_witness :
  Monitor.reachable Sample.clock Sample.recorded
  /\ Monitor.getDeprecationWarnings (Monitor.monitor Sample.recorded)
     = filter Monitor.isDeprecationData
              (Monitor.warnings (Monitor.monitor Sample.recorded)).
Proof.
  split; [exact reachable_recorded|].
  exact (@getDeprecationWarnings_classified unit Sample.clock Sample.recorded
                                            reachable_recorded).
Defined.

(** [getSlowQueries_above_threshold] at the state that holds a query of two
    seconds. *)
Lemma getSlowQueries_above_threshold_witness :
  Monitor.reachable Sample.clock Sample.slowed
  /\ Forall (fun q => 1000 < Monitor.sq_executionTime q)
            (Monitor.getSlowQueries (Monitor.monitor Sample.slowed)).
Proof.
  split; [exact reachable_slowed|].
  exact (@getSlowQueries_above_threshold unit Sample.clock Sample.slowed
                                         reachable_slowed).
Defined.

(** [slowQueries_untracked] at a monitor made with [trackSlowQueries: false]
    and told of a query of two seconds. *)
Lemma slowQueries_untracked_witness :
  Monitor.reachable Sample.clock Sample.untracked
  /\ Monitor.trackSlowQueries (Monitor.options (Monitor.monitor Sample.untracked))
     = false
  /\ Monitor.getSlowQueries (Monitor.monitor Sample.untracked) = []
  /\ Monitor.st_slowQueries (Monitor.getStats (Monitor.monitor Sample.untracked)) = 0.
Proof.
  split; [exact reachable_untracked|]. split; [reflexivity|].
  exact (@slowQueries_untracked unit Sample.clock Sample.untracked
                                reachable_untracked eq_refl).
Defined.

Lemma slowed_not_empty :
  Monitor.slowQueries (Monitor.monitor Sample.slowed) <> [].
Proof. discriminate. Qed.

(** [avgSlowQueryTime_above_threshold] at the state that holds a query of two
    seconds. *)
Lemma avgSlowQueryTime_above_threshold_witness :
  Monitor.reachable Sample.clock Sample.slowed
  /\ Monitor.slowQueries (Monitor.monitor Sample.slowed) <> []
  /\ Qlt (inject_Z 1000)
         (Monitor.st_avgSlowQueryTime (Monitor.getStats (Monitor.monitor Sample.slowed))).
Proof.
  split; [exact reachable_slowed|]. split; [exact slowed_not_empty|].
  exact (@avgSlowQueryTime_above_threshold unit Sample.clock Sample.slowed
                                           reachable_slowed slowed_not_empty).
Defined.

(** [getStats_counts] at the state that holds the record of one warning. *)
Lemma getStats_counts_witness :
  Monitor.reachable Sample.clock Sample.recorded
  /\ 0 <= Monitor.st_deprecationWarnings (Monitor.getStats (Monitor.monitor Sample.recorded))
     <= Monitor.st_totalWarnings (Monitor.getStats (Monitor.monitor Sample.recorded)).
Proof.
  split; [exact reachable_recorded|].
  exact (@getStats_counts unit Sample.clock Sample.recorded reachable_recorded).
Defined.

(** [checkWarnings_settles] on a connection whose statements fail. *)
Lemma checkWarnings_settles_witness :
  Monitor.query Sample.broken (Monitor.SqlText "SHOW WARNINGS") Sample.world
  = Some (Thrown Sample.lost, Sample.world)
  /\ exists w',
      Monitor.checkWarnings Sample.clock Sample.broken "SELECT 1" 3 Sample.world
      = Some (Returned tt, w')
      /\ Monitor.db w' = Monitor.db Sample.world
      /\ Monitor.options (Monitor.monitor w')
         = Monitor.options (Monitor.monitor Sample.world).
Proof.
  split; [reflexivity|].
  exact (proj2 (checkWarnings_settles Sample.clock Sample.broken "SELECT 1" 3
                                      Sample.world)
               (Thrown Sample.lost) Sample.world eq_refl).
Defined.

(** [checkWarnings_query_failure] on a connection whose statements fail, the
    log being on. *)
Lemma checkWarnings_query_failure_witness :
  Monitor.query Sample.broken (Monitor.SqlText "SHOW WARNINGS") Sample.world
  = Some (Thrown Sample.lost, Sample.world)
  /\ exists w',
      Monitor.checkWarnings Sample.clock Sample.broken "SELECT 1" 3 Sample.world
      = Some (Returned tt, w')
      /\ Monitor.monitor w' = Monitor.monitor Sample.world
      /\ Monitor.clockReads w' = Monitor.clockReads Sample.world
      /\ Monitor.logged w' = [] ++ [Monitor.errorEvent Sample.lost].
Proof.
  split; [reflexivity|].
  exact (@checkWarnings_query_failure unit Sample.clock Sample.broken "SELECT 1" 3
                                      Sample.world Sample.lost Sample.world eq_refl).
Defined.

(** [checkWarnings_log_lines] at the warning on [authentication_string]. *)
Lemma checkWarnings_log_lines_witness :
  Monitor.query Sample.warned (Monitor.SqlText "SHOW WARNINGS") Sample.world
  = Some (Returned (Some [Sample.deprecation]), Sample.world)
  /\ exists w',
      Monitor.checkWarnings Sample.clock Sample.warned
                            "SELECT authentication_string FROM mysql.user" 12
                            Sample.world
      = Some (Returned tt, w')
      /\ Monitor.logged w'
         = [] ++ [Monitor.deprecationEvent Sample.deprecationRecord] ++ [].
Proof.
  split; [reflexivity|].
  exact (@checkWarnings_log_lines unit Sample.clock Sample.warned
           "SELECT authentication_string FROM mysql.user" 12
           Sample.world (Some [Sample.deprecation]) Sample.world eq_refl).
Defined.

(** [checkWarnings_appends_records] at the same call. *)
Lemma checkWarnings_appends_records_witness :
  Monitor.query Sample.warned (Monitor.SqlText "SHOW WARNINGS") Sample.world
  = Some (Returned (Some [Sample.deprecation]), Sample.world)
  /\ exists w' ds,
      Monitor.checkWarnings Sample.clock Sample.warned
                            "SELECT authentication_string FROM mysql.user" 12
                            Sample.world
      = Some (Returned tt, w')
      /\ Monitor.warnings (Monitor.monitor w') = [] ++ ds
      /\ map Monitor.kept ds = map Monitor.given [Sample.deprecation]
      /\ Forall (fun d => Monitor.wd_query d
                          = "SELECT authentication_string FROM mysql.user"
                          /\ Monitor.wd_executionTime d = 12) ds
      /\ Monitor.st_totalWarnings (Monitor.getStats (Monitor.monitor w')) = 0 + 1.
Proof.
  split; [reflexivity|].
  exact (@checkWarnings_appends_records unit Sample.clock Sample.warned
           "SELECT authentication_string FROM mysql.user" 12
           Sample.world (Some [Sample.deprecation]) Sample.world eq_refl eq_refl).
Defined.

End MoreInstances.

Section ScannerMoreInstances.

Import Js Scanner.
Open Scope string_scope.
Open Scope Z_scope.
Open Scope list_scope.

(** [clear_restores_new_monitor] at the state that holds the record of one
    warning. *)
Lemma clear_restores_new_monitor_witness :
  Monitor.reachable Sample.clock Sample.recorded
  /\ exists o w',
      Monitor.clear Sample.recorded = Some (Returned tt, w')
      /\ Monitor.options (Monitor.monitor Sample.recorded)
         = Monitor.options (Monitor.constructor o)
      /\ Monitor.monitor w' = Monitor.constructor o
      /\ Monitor.getStats (Monitor.monitor w') = Monitor.noStats.
Proof.
  split; [exact reachable_recorded|].
  exact (@clear_restores_new_monitor unit Sample.clock Sample.recorded
                                     reachable_recorded).
Defined.

(** [main_without_schema_name] in an environment without [DB_NAME], whatever
    the server. *)
Lemma main_without_schema_name_witness :
  (DB_NAME Sample.noName = None \/ DB_NAME Sample.noName = Some "")
  /\ main Sample.noName Sample.refused
     = {| exitCode := 1; output := usage; scan := None |}.
Proof.
  split; [left; reflexivity|].
  exact (main_without_schema_name Sample.noName (or_introl eq_refl) Sample.refused).
Defined.

(** [main_connection_failure] on a server that refuses the connection. *)
Lemma main_connection_failure_witness :
  isEmpty (database (dbConfig Sample.env)) = false
  /\ createConnection Sample.refused (dbConfig Sample.env) = Thrown Sample.lost
  /\ main Sample.env Sample.refused
     = {| exitCode := 1;
          output := banner (dbConfig Sample.env) ++ errorDetails Sample.lost;
          scan := None |}.
Proof.
  split; [reflexivity|]. split; [reflexivity|].
  exact (@main_connection_failure Sample.env Sample.refused Sample.lost
                                  eq_refl eq_refl).
Defined.

(** [main_close_failure] on a connection that answers every statement and
    cannot be closed. *)
Lemma main_close_failure_witness :
  createConnection Sample.halfOpen (dbConfig Sample.env) = Returned Sample.unclosable
  /\ endConnection Sample.unclosable = Thrown Sample.lost
  /\ exitCode (main Sample.env Sample.halfOpen) = 1
  /\ scan (main Sample.env Sample.halfOpen) = None.
Proof.
  split; [reflexivity|]. split; [reflexivity|].
  exact (@main_close_failure Sample.env Sample.halfOpen Sample.unclosable Sample.lost
                             eq_refl eq_refl).
Defined.

(** [main_unreadable_column] on the schema whose column [email] cannot be
    read. *)
Lemma main_unreadable_column_witness :
  stored Sample.shopDenied "users" "email" = Thrown Sample.denied
  /\ exists t' c' e' l,
      In t' (baseTables Sample.shopDenied)
      /\ In c' (stringColumns Sample.shopDenied t')
      /\ stored Sample.shopDenied t' c' = Thrown e'
      /\ main Sample.env (Sample.connectTo Sample.shopDenied)
         = {| exitCode := 1;
              output := banner (dbConfig Sample.env) ++ l ++ errorDetails e';
              scan := None |}
      /\ ~ In summaryHeader
              (output (main Sample.env (Sample.connectTo Sample.shopDenied))).
Proof.
  split; [reflexivity|].
  exact (@main_unreadable_column
           Sample.shopDenied Sample.env (Sample.connectTo Sample.shopDenied)
           "users" "email" Sample.denied
           eq_refl eq_refl (or_introl eq_refl) (or_introl eq_refl) eq_refl).
Defined.

(** [report_counts] at the entry of the addresses in the scan of [shop]. *)
Lemma report_counts_witness :
  createConnection (Sample.connectTo Sample.shop) (dbConfig Sample.env)
  = Returned (server Sample.shop)
  /\ scan (main Sample.env (Sample.connectTo Sample.shop))
     = Some {| results := report Sample.shop; totalIssues := text "031" |}
  /\ In Sample.emailEntry (report Sample.shop)
  /\ exists n, trailingSpaceCount Sample.emailEntry = text (show n)
               /\ 0 < n <= totalRows Sample.emailEntry.
Proof.
  split; [reflexivity|]. split; [vm_compute; reflexivity|].
  split; [left; reflexivity|].
  apply (@report_counts Sample.shop Sample.env (Sample.connectTo Sample.shop)
                        {| results := report Sample.shop; totalIssues := text "031" |}
                        Sample.emailEntry).
  - reflexivity.
  - vm_compute; reflexivity.
  - left; reflexivity.
Defined.

(** [main_total_bounds] at the scan of [shop]. *)
Lemma main_total_bounds_witness :
  scan (main Sample.env (Sample.connectTo Sample.shop))
  = Some {| results := report Sample.shop; totalIssues := text "031" |}
  /\ exists n,
      toNumber (text "031") = Some n
      /\ len (report Sample.shop) <= n
      /\ (n = 0 <-> report Sample.shop = []).
Proof.
  split; [vm_compute; reflexivity|].
  apply (@main_total_bounds Sample.env (Sample.connectTo Sample.shop)
                            {| results := report Sample.shop; totalIssues := text "031" |}).
  vm_compute; reflexivity.
Defined.


End ScannerMoreInstances.
